(** * Helio Workstation: the version-control orchestrator

    A shallow embedding of [Source/Core/VCS/VersionControl.cpp].  Revisions
    are reference-counted heap objects in the program ([Revision::Ptr]); they
    are modelled as cells of a store addressed by pointers, so that the head,
    the stashes and the revision tree alias the same cells the way the C++
    objects do.  The classes the orchestrator composes ([Revision], [Head],
    [Pack], [StashesRepository]) are not part of the translated sources; each
    of their operations is modelled from the design document and marked so. *)

From Stdlib Require Import ZArith Ascii String.
From stdpp Require Import gmap strings list fin_maps sorting pretty.

Set Warnings "-register-all".

(** ** JUCE strings and string arrays, as far as [calculateHash] uses them *)

Module Juce.

(** [CharacterFunctions::toUpperCase], on the code of a 7-bit character. *)
Definition toUpperCase (c : ascii) : N :=
  let n := N_of_ascii c in
  if ((97 <=? n) && (n <=? 122))%N then (n - 32)%N else n.

(** The sequence of upper-cased character codes two strings are compared by. *)
Fixpoint caseKey (s : string) : list N :=
  match s with
  | EmptyString => []
  | String c rest => toUpperCase c :: caseKey rest
  end.

Fixpoint compareKeys (a b : list N) : comparison :=
  match a, b with
  | [], [] => Eq
  | [], _ :: _ => Lt
  | _ :: _, [] => Gt
  | x :: a', y :: b' =>
      match (x ?= y)%N with
      | Eq => compareKeys a' b'
      | c => c
      end
  end.

(** [String::compareIgnoreCase]. *)
Definition compareIgnoreCase (a b : string) : comparison :=
  compareKeys (caseKey a) (caseKey b).

(** The order [StringArray::sort (true)] arranges its strings in. *)
Definition precedes (a b : string) : Prop := compareIgnoreCase a b ≠ Gt.

#[global] Instance precedes_dec : RelDecision precedes.
Proof. intros a b. unfold precedes. apply _. Defined.

(** [StringArray::sort (ignoreCase = true)].  Merge sort stands for the
    sorting algorithm of the library: on arrays of digit strings, the ones
    [calculateHash] sorts, every algorithm gives the same array. *)
Definition sortIgnoreCase (l : list string) : list string :=
  merge_sort precedes l.

(** [StringArray::joinIntoString] with the given separator. *)
Definition joinIntoString (sep : string) (l : list string) : string :=
  String.concat sep l.

(** [String (uint32)]: the decimal digits of the number. *)
Definition String_of_uint32 (n : N) : string := pretty n.

(** [SparseSet<int>]: the selected values in ascending order; [operator[]]
    gives the i-th of them. *)
Abbreviation SparseSet := (list Z) (only parsing).

(** [operator[]] of a JUCE array of pointers: the element, or a null pointer
    when the index is negative or not below the size. *)
Definition arrayGet {A} (l : list A) (index : Z) : option A :=
  if (index <? 0)%Z then None else l !! Z.to_nat index.

End Juce.

(** ** Data model *)

Abbreviation Ptr := positive (only parsing).
Abbreviation Uuid := string (only parsing).
Abbreviation Payload := string (only parsing).

(** Modelled from the spec: RevisionItem.cpp is not among the sources.  The
    three kinds of change record. *)
Inductive ItemKind := Added | Removed | Changed.

(** Modelled from the spec: RevisionItem.cpp is not among the sources.  One
    change record for one tracked item. *)
Record RevisionItem := mkItem {
  targetId : Uuid;
  kind : ItemKind;
  payload : Payload
}.

(** Modelled from the spec: Revision.cpp is not among the sources.  One
    [Revision] object; its children are held by pointer.  Its timestamp,
    which no method of the orchestrator reads, is left out. *)
Record Revision := mkRevision {
  uuid : Uuid;
  message : string;
  items : list RevisionItem;
  children : list Ptr
}.

(** Modelled from the spec: Pack.cpp is not among the sources.  The payloads
    by content hash, and the hashes of the entries not yet persisted. *)
Record Pack := mkPack {
  entries : gmap N Payload;
  dirty : gset N
}.

(** Modelled from the spec: Head.cpp is not among the sources.  The heading
    revision (null while the head is unbound), the index with its validity,
    and the diff the head caches with the flag that says it is outdated. *)
Record Head := mkHead {
  headingRevision : option Ptr;
  index : gmap Uuid RevisionItem;
  indexValid : bool;
  diffOutdated : bool;
  diff : option Ptr
}.

(** Modelled from the spec: StashesRepository.cpp is not among the
    sources.  The named stashes, and the quick slot. *)
Record StashesRepository := mkStashes {
  userStashes : list Ptr;
  quickStash : option Ptr
}.

(** The [VersionControl] object ([pack], [head], [stashes], [rootRevision])
    together with what its methods act on: the store of revision objects, the
    live tracked items of the document, and the change messages sent so far.
    A change message is recorded with the heading revision its listeners will
    find. *)
Record VCState := mkVC {
  store : gmap Ptr Revision;
  pack : Pack;
  head : Head;
  stashes : StashesRepository;
  rootRevision : Ptr;
  live : gmap Uuid Payload;
  changes : list (option Ptr)
}.

#[global] Instance ItemKind_eq_dec : EqDecision ItemKind.
Proof. solve_decision. Defined.

#[global] Instance RevisionItem_eq_dec : EqDecision RevisionItem.
Proof. solve_decision. Defined.

Definition set_store (f : gmap Ptr Revision → gmap Ptr Revision) (s : VCState) : VCState :=
  mkVC (f (store s)) (pack s) (head s) (stashes s) (rootRevision s) (live s) (changes s).

Definition set_pack (f : Pack → Pack) (s : VCState) : VCState :=
  mkVC (store s) (f (pack s)) (head s) (stashes s) (rootRevision s) (live s) (changes s).

Definition set_head (f : Head → Head) (s : VCState) : VCState :=
  mkVC (store s) (pack s) (f (head s)) (stashes s) (rootRevision s) (live s) (changes s).

Definition set_stashes (f : StashesRepository → StashesRepository) (s : VCState) : VCState :=
  mkVC (store s) (pack s) (head s) (f (stashes s)) (rootRevision s) (live s) (changes s).

Definition set_live (f : gmap Uuid Payload → gmap Uuid Payload) (s : VCState) : VCState :=
  mkVC (store s) (pack s) (head s) (stashes s) (rootRevision s) (f (live s)) (changes s).

Definition set_changes (f : list (option Ptr) → list (option Ptr)) (s : VCState) : VCState :=
  mkVC (store s) (pack s) (head s) (stashes s) (rootRevision s) (live s) (f (changes s)).

(** ** The persisted structure

    What [serialize] writes is a [ValueTree]; of it the model keeps the node
    of the version-control container and the nodes below it. *)

(** Modelled from the spec: Revision.cpp is not among the sources.  The
    node of a revision: its id, message and items, and nested in it the nodes
    of its children. *)
Inductive RevisionNode :=
  mkRevisionNode (id : Uuid) (msg : string) (its : list RevisionItem)
                 (kids : list RevisionNode).

(** The container: the id of the heading revision, the revision tree, the
    stashes (the named ones and the quick one), the pack, and the node the
    head wrote, kept as the head it was written from. *)
Record VersionControlNode := mkVCNode {
  headRevisionId : Uuid;
  revisionNode : RevisionNode;
  stashesNode : list RevisionNode * option RevisionNode;
  packNode : gmap N Payload;
  headNode : Head
}.

(** A tree handed to [deserialize]: the container itself, or some other
    node with its children. *)
Inductive ValueTree :=
| VersionControlTree (n : VersionControlNode)
| OtherTree (kids : list ValueTree).

(** [tree.hasType (versionControl) ? tree : tree.getChildWithName
    (versionControl)]; [None] is the invalid tree. *)
Definition versionControlRoot (tree : ValueTree) : option VersionControlNode :=
  match tree with
  | VersionControlTree n => Some n
  | OtherTree kids =>
      match omap (λ k, match k with
                       | VersionControlTree n => Some n
                       | OtherTree _ => None
                       end) kids with
      | n :: _ => Some n
      | [] => None
      end
  end.

(** ** The monad of the methods: state passing, with [None] for a run that
    dereferences a null or dangling pointer or exhausts its recursion fuel. *)

Definition M (A : Type) : Type := VCState → option (A * VCState).

#[global] Instance M_ret : MRet M := λ A x s, Some (x, s).

#[global] Instance M_bind : MBind M := λ A B f m s,
  match m s with
  | Some (a, s') => f a s'
  | None => None
  end.

Definition get : M VCState := λ s, Some (s, s).
Definition modify (f : VCState → VCState) : M unit := λ s, Some (tt, f s).
Definition stuck {A} : M A := λ _, None.
Definition liftOption {A} (o : option A) : M A :=
  λ s, match o with Some a => Some (a, s) | None => None end.

(** [p->...]: reading the object a pointer refers to. *)
Definition deref (p : Ptr) : M Revision := λ s, liftOption (store s !! p) s.

(** What a method hands back to its caller: nothing for a [void] method. *)
Inductive Returned := NoValue | BoolValue (b : bool).

Class Returns (A : Type) := returned : A → Returned.

#[global] Instance Returns_unit : Returns unit := λ _, NoValue.

#[global] Instance Returns_bool : Returns bool := BoolValue.

(** The value a run hands back, [None] for a run that goes wrong. *)
Definition outcome {A} `{Returns A} (m : M A) (s : VCState) : option Returned :=
  (λ r : A * VCState, returned r.1) <$> m s.

(** ** A reference choice of the parameters of the model, to run it on
    concrete projects. *)

Module Sample.

(** A revision is empty when it has neither items nor children. *)
Definition isEmpty (r : Revision) : bool :=
  bool_decide (items r = [] ∧ children r = []).

Definition freshUuid (p : Ptr) : Uuid := "rev-" +:+ pretty (Npos p).

Definition stringHash (s : string) : N := N.of_nat (String.length s).

Definition combineHash (its : list RevisionItem) (below : list N) : N :=
  (N.of_nat (length its) + 31 * foldr N.add 0 below)%N.

Definition payloadHash (p : Payload) : N := N.of_nat (String.length p).

(** Revisions replayed on their own: enough for projects of one level. *)
Definition ancestors (st : gmap Ptr Revision) (p : Ptr) : list Ptr := [p].

Definition itemDiff (recorded : option RevisionItem) (now : option Payload) : option (ItemKind * Payload) :=
  match recorded, now with
  | None, None => None
  | None, Some state => Some (Added, state)
  | Some _, None => Some (Removed, "")
  | Some item, Some state =>
      if decide (payload item = state) then None else Some (Changed, state)
  end.

Definition itemApply (item : RevisionItem) (now : option Payload) : option Payload :=
  match kind item with
  | Removed => None
  | _ => Some (payload item)
  end.

(** Resetting a head clears its index and its cached diff. *)
Definition Head_reset (h : Head) : Head :=
  mkHead (headingRevision h) ∅ false true None.

(** A head takes the index the written head had. *)
Definition Head_deserialize (written h : Head) : Head :=
  mkHead (headingRevision h) (index written) true (diffOutdated h) (diff h).

(** A project with two tracked items and nothing committed yet. *)
Definition document : gmap Uuid Payload := {[ "a" := "1"; "b" := "2" ]}.

(** A project as loaded from a file that carries a quick stash: the root
    revision at address 1, the stashed revision at address 2. *)
Definition stashedProject : VCState :=
  let st : gmap Ptr Revision :=
    {[ 1%positive := mkRevision "root" "first" [mkItem "a" Added "0"] [];
       2%positive := mkRevision "quick" "" [mkItem "a" Changed "1"] [] ]} in
  mkVC st (mkPack ∅ ∅)
       (mkHead (Some 1%positive) {[ "a" := mkItem "a" Added "0" ]} true true None)
       (mkStashes [] (Some 2%positive)) 1%positive document [].

(** A project with one stash shelved under the name "wip". *)
Definition shelved : VCState :=
  let st : gmap Ptr Revision :=
    {[ 1%positive := mkRevision "root" "first" [mkItem "a" Added "0"] [];
       2%positive := mkRevision "stash" "wip" [mkItem "a" Changed "1"] [] ]} in
  mkVC st (mkPack ∅ ∅)
       (mkHead (Some 1%positive) {[ "a" := mkItem "a" Added "0" ]} true true None)
       (mkStashes [2%positive] None) 1%positive document [].

(** The same project with the head on the stash, where [moveHead] puts it
    when handed the stashed revision. *)
Definition onStash : VCState :=
  mkVC (store shelved) (pack shelved)
       (mkHead (Some 2%positive) {[ "a" := mkItem "a" Changed "1" ]} true true None)
       (stashes shelved) (rootRevision shelved) (live shelved) [Some 2%positive].

(** A history with a root and two commits below it, and the same history
    with the two commits attached in the other order. *)
Definition history (firstChild secondChild : Ptr) : VCState :=
  let st : gmap Ptr Revision :=
    {[ 1%positive := mkRevision "root" "first" [] [firstChild; secondChild];
       2%positive := mkRevision "left" "edit a" [mkItem "a" Added "1"] [];
       3%positive := mkRevision "right" "edit b" [mkItem "b" Added "2"; mkItem "a" Changed "3"] [] ]} in
  mkVC st (mkPack ∅ ∅)
       (mkHead (Some 1%positive) ∅ true true None)
       (mkStashes [] None) 1%positive document [].

(** A history whose root has one child that holds nothing yet. *)
Definition withPlaceholder : VCState :=
  let st : gmap Ptr Revision :=
    {[ 1%positive := mkRevision "root" "first" [mkItem "a" Added "1"] [2%positive];
       2%positive := mkRevision "later" "" [] [] ]} in
  mkVC st (mkPack ∅ ∅)
       (mkHead (Some 1%positive) {[ "a" := mkItem "a" Added "1" ]} true true None)
       (mkStashes [] None) 1%positive document [].

(** A project whose head is bound to no revision. *)
Definition unbound : VCState :=
  mkVC (store (history 2 3)) (mkPack ∅ ∅) (mkHead None ∅ false true None)
       (mkStashes [] None) 1%positive document [].

(** A storage that takes every write, and one that takes none. *)
Definition persists (pk : Pack) : bool := true.
Definition storageFull (pk : Pack) : bool := false.

(** The answer of a repository through which [VersionControl::hasQuickStash]
    reports an occupied quick slot. *)
Definition stashesHasQuickStash (sr : StashesRepository) : bool :=
  bool_decide (quickStash sr = None).

End Sample.

Section VersionControl.

(** Parameters of the model: what the sources and the design document leave
    to other translation units.  [Revision_isEmpty] is [Revision::isEmpty],
    [freshUuid] the id a newly constructed revision draws, [CompileTimeHash]
    the string hash of Common.h, [combineHash] the way a revision mixes its
    items with its descendants' hashes, [payloadHash] the content address of
    a payload, [ancestors] the path of revisions the head replays to reach a
    revision, [TrackedItem_diff] and [TrackedItem_apply] the delta logic of
    the tracked items themselves, [Head_reset] is [Head::reset],
    [Head_deserialize] what [Head::deserialize] makes of a head given the
    node another head wrote, [Pack_persists] whether the storage takes the
    write of a pack's dirty entries, and [Stashes_hasQuickStash] is
    [StashesRepository::hasQuickStash], of which the design document gives
    the name only. *)
Context (Revision_isEmpty : Revision → bool).
Context (freshUuid : Ptr → Uuid).
Context (CompileTimeHash : string → N).
Context (combineHash : list RevisionItem → list N → N).
Context (payloadHash : Payload → N).
Context (ancestors : gmap Ptr Revision → Ptr → list Ptr).
Context (TrackedItem_diff : option RevisionItem → option Payload → option (ItemKind * Payload)).
Context (TrackedItem_apply : RevisionItem → option Payload → option Payload).
Context (Head_reset : Head → Head).
Context (Head_deserialize : Head → Head → Head).
Context (Pack_persists : Pack → bool).
Context (Stashes_hasQuickStash : StashesRepository → bool).

(** *** Pack *)

(** Modelled from the spec: Pack.cpp is not among the sources.  [store]
    dedups by content hash and marks a new entry dirty. *)
Definition Pack_store (p : Payload) (pk : Pack) : Pack :=
  let h := payloadHash p in
  match entries pk !! h with
  | Some _ => pk
  | None => mkPack (<[h := p]> (entries pk)) ({[h]} ∪ dirty pk)
  end.

(** Modelled from the spec: Pack.cpp is not among the sources.  [flush]
    persists the dirty entries and reports whether the write went through.
    After a write that went through no entry is dirty; a failed one leaves
    the pack as it was, dirty entries included, for the next flush to
    retry. *)
Definition Pack_flush (pk : Pack) : bool * Pack :=
  if Pack_persists pk then (true, mkPack (entries pk) ∅) else (false, pk).

(** Modelled from the spec: Pack.cpp is not among the sources. *)
Definition Pack_reset (pk : Pack) : Pack := mkPack ∅ ∅.

(** *** Revision *)

(** Modelled from the spec: Revision.cpp is not among the sources.  The
    revision [new Revision (pack)] creates: no message, items or children. *)
Definition emptyRevision (u : Uuid) : Revision := mkRevision u "" [] [].

(** Modelled from the spec: Revision.cpp is not among the sources.
    [new Revision (pack, message)]: a new object, held by nothing else. *)
Definition Revision_new (msg : string) : M Ptr := λ s,
  let p := fresh (dom (store s)) in
  Some (p, set_store (insert p (mkRevision (freshUuid p) msg [] [])) s).

Definition Revision_update (p : Ptr) (f : Revision → Revision) : M unit :=
  r ← deref p; modify (set_store (insert p (f r))).

(** Modelled from the spec: Revision.cpp is not among the sources.
    [addChild] attaches the child, with no check on ids or cycles. *)
Definition Revision_addChild (p child : Ptr) : M unit :=
  Revision_update p (λ r, mkRevision (uuid r) (message r) (items r) (children r ++ [child])).

(** Modelled from the spec: Revision.cpp is not among the sources.
    [addItem] keeps at most one item per target id. *)
Definition Revision_addItem (p : Ptr) (item : RevisionItem) : M unit :=
  Revision_update p (λ r, mkRevision (uuid r) (message r)
    (filter (λ i, targetId i ≠ targetId item) (items r) ++ [item]) (children r)).

(** Modelled from the spec: Revision.cpp is not among the sources.
    [flush] pushes the payloads of the items into the pack. *)
Definition Revision_flush (p : Ptr) : M unit :=
  r ← deref p;
  modify (set_pack (λ pk, foldl (λ acc i, Pack_store (payload i) acc) pk (items r))).

(** Modelled from the spec: Revision.cpp is not among the sources.
    [reset] clears the items and the children. *)
Definition Revision_reset (p : Ptr) : M unit :=
  Revision_update p (λ r, mkRevision (uuid r) (message r) [] []).

(** [revision->isEmpty ()]. *)
Definition isEmpty (p : Ptr) : M bool := r ← deref p; mret (Revision_isEmpty r).

(** Modelled from the spec: Revision.cpp is not among the sources.  The
    content hash of a revision combines its own items with the sorted hashes
    of all its descendants; the second component lists those descendants'
    hashes. *)
Fixpoint Revision_hashes (fuel : nat) (st : gmap Ptr Revision) (p : Ptr) : option (N * list N) :=
  match fuel with
  | O => None
  | S fuel' =>
      r ← st !! p;
      subs ← mapM (Revision_hashes fuel' st) (children r);
      let below := subs ≫= (λ hd, hd.1 :: hd.2) in
      Some (combineHash (items r) (merge_sort N.le below), below)
  end.

Definition Revision_calculateHash (fuel : nat) (st : gmap Ptr Revision) (p : Ptr) : option N :=
  fst <$> Revision_hashes fuel st p.

(** *** Head *)

(** Modelled from the spec: Head.cpp is not among the sources.  [pointTo]
    rebinds the heading revision and marks the index invalid. *)
Definition Head_pointTo (r : Ptr) (h : Head) : Head :=
  mkHead (Some r) (index h) false (diffOutdated h) (diff h).

(** Last writer wins, per target id. *)
Definition mergeItems (idx : gmap Uuid RevisionItem) (its : list RevisionItem) : gmap Uuid RevisionItem :=
  foldl (λ acc i, <[targetId i := i]> acc) idx its.

(** Modelled from the spec: Head.cpp is not among the sources.  [moveTo]
    binds the head to the revision and leaves a valid index: the merge, in
    root-to-target order, of the items of the revisions on the path. *)
Definition Head_moveTo (st : gmap Ptr Revision) (r : Ptr) (h : Head) : Head :=
  mkHead (Some r)
    (foldl (λ acc p, mergeItems acc (default [] (items <$> st !! p))) ∅ (ancestors st r))
    true (diffOutdated h) (diff h).

(** [this->head.moveTo (revision)]. *)
Definition head_moveTo (r : Ptr) : M unit :=
  modify (λ s, set_head (Head_moveTo (store s) r) s).

(** [this->head.getHeadingRevision ()]; the pointer is null while the head
    is unbound. *)
Definition head_getHeadingRevision : M (option Ptr) :=
  s ← get; mret (headingRevision (head s)).

(** The change records of the live items against the index. *)
Definition computeDiff (idx : gmap Uuid RevisionItem) (lv : gmap Uuid Payload) : list RevisionItem :=
  omap (λ id, (λ kd : ItemKind * Payload, mkItem id kd.1 kd.2) <$> TrackedItem_diff (idx !! id) (lv !! id))
       (elements (dom idx ∪ dom lv)).

(** Modelled from the spec: Head.cpp is not among the sources.  [getDiff]
    rebuilds a stale index by moving to the current heading revision, and
    returns the cached diff, recomputed as a new unattached revision when it
    is outdated. *)
Definition head_getDiff : M Ptr :=
  s ← get;
  (if indexValid (head s) then mret tt
   else match headingRevision (head s) with
        | Some r => head_moveTo r
        | None => mret tt
        end);;
  s ← get;
  match diff (head s), diffOutdated (head s) with
  | Some d, false => mret d
  | _, _ =>
      let p := fresh (dom (store s)) in
      let d := mkRevision (freshUuid p) "" (computeDiff (index (head s)) (live s)) [] in
      modify (set_store (insert p d));;
      modify (set_head (λ h, mkHead (headingRevision h) (index h) (indexValid h) false (Some p)));;
      mret p
  end.

(** Applying change records onto the live items. *)
Definition applyItems (its : list RevisionItem) (lv : gmap Uuid Payload) : gmap Uuid Payload :=
  foldl (λ acc i, partial_alter (TrackedItem_apply i) (targetId i) acc) lv its.

Definition indexItems (h : Head) : list RevisionItem := (map_to_list (index h)).*2.

(** Modelled from the spec: Head.cpp is not among the sources.  [checkout]
    applies every item of the index onto the live items. *)
Definition Head_checkout (h : Head) (lv : gmap Uuid Payload) : gmap Uuid Payload :=
  applyItems (indexItems h) lv.


(** Modelled from the spec: Head.cpp is not among the sources. *)
Definition Head_cherryPickAll (h : Head) (lv : gmap Uuid Payload) : gmap Uuid Payload :=
  applyItems (indexItems h) lv.

(** Modelled from the spec: Head.cpp is not among the sources.
    [resetChanges] restores the named live items to their indexed values. *)
Definition Head_resetChanges (its : list RevisionItem) (h : Head) (lv : gmap Uuid Payload) : gmap Uuid Payload :=
  foldl (λ acc i,
           match index h !! targetId i with
           | Some recorded => partial_alter (TrackedItem_apply recorded) (targetId i) acc
           | None => delete (targetId i) acc
           end) lv its.

(** Modelled from the spec: Head.cpp is not among the sources.
    [mergeStateWith] applies the items of another revision onto the live
    items without touching the index. *)
Definition Head_mergeStateWith (r : Revision) (lv : gmap Uuid Payload) : gmap Uuid Payload :=
  applyItems (items r) lv.

(** Modelled from the spec: Head.cpp is not among the sources.
    [setDiffOutdated]. *)
Definition Head_setDiffOutdated (b : bool) (h : Head) : Head :=
  mkHead (headingRevision h) (index h) (indexValid h) b (diff h).

(** *** StashesRepository *)

(** Modelled from the spec: StashesRepository.cpp is not among the sources. *)
Definition Stashes_addStash (r : Ptr) (sr : StashesRepository) : StashesRepository :=
  mkStashes (userStashes sr ++ [r]) (quickStash sr).

(** Modelled from the spec: StashesRepository.cpp is not among the sources. *)
Definition Stashes_removeStash (r : Ptr) (sr : StashesRepository) : StashesRepository :=
  mkStashes (filter (λ p, p ≠ r) (userStashes sr)) (quickStash sr).

(** Modelled from the spec: StashesRepository.cpp is not among the sources.
    A stash is looked up by the name it was filed under, the message of its
    revision; an absent name gives the empty sentinel, never null. *)
Definition Stashes_getUserStashWithName (name : string) : M Ptr :=
  s ← get;
  match List.find (λ p, bool_decide (message <$> store s !! p = Some name)) (userStashes (stashes s)) with
  | Some p => mret p
  | None => Revision_new ""
  end.

(** Modelled from the spec: StashesRepository.cpp is not among the sources.
    Storing into an occupied quick slot is rejected. *)
Definition Stashes_storeQuickStash (r : Ptr) (sr : StashesRepository) : StashesRepository :=
  match quickStash sr with
  | Some _ => sr
  | None => mkStashes (userStashes sr) (Some r)
  end.

(** Modelled from the spec: StashesRepository.cpp is not among the sources. *)
Definition Stashes_resetQuickStash (sr : StashesRepository) : StashesRepository :=
  mkStashes (userStashes sr) None.

(** Modelled from the spec: StashesRepository.cpp is not among the sources.
    The revision in the quick slot, or the empty sentinel. *)
Definition Stashes_getQuickStash : M Ptr :=
  s ← get;
  match quickStash (stashes s) with
  | Some q => mret q
  | None => Revision_new ""
  end.

(** *** VersionControl (VersionControl.cpp) *)

(** [ChangeBroadcaster::sendChangeMessage]: the message is delivered after
    the method has returned; it is recorded with the heading revision. *)
(** [this->pack->flush ()]: the pack is flushed and the report comes back. *)
Definition pack_flush : M bool :=
  s ← get;
  modify (set_pack (λ pk, (Pack_flush pk).2));;
  mret (Pack_flush (pack s)).1.

Definition sendChangeMessage : M unit :=
  modify (λ s, set_changes (λ l, l ++ [headingRevision (head s)]) s).

(** The constructor: an empty pack and stash repository, a root revision,
    and the head moved onto the root. *)
Definition VersionControl_new (lv : gmap Uuid Payload) : VCState :=
  let p : Ptr := fresh (dom (∅ : gmap Ptr Revision)) in
  let st : gmap Ptr Revision :=
    {[ p := mkRevision (freshUuid p) "defaults::newproject::firstcommit" [] [] ]} in
  mkVC st (mkPack ∅ ∅) (Head_moveTo st p (mkHead None ∅ false true None))
       (mkStashes [] None) p lv [].

(** The loop of [getRevisionById] over the children: the first search that
    does not come back empty is returned; otherwise a new empty revision. *)
Fixpoint searchChildren (search : Ptr → M Ptr) (cs : list Ptr) : M Ptr :=
  match cs with
  | [] => Revision_new ""
  | child :: rest =>
      found ← search child;
      e ← isEmpty found;
      if negb e then mret found else searchChildren search rest
  end.

Fixpoint getRevisionById (fuel : nat) (startFrom : Ptr) (id : string) : M Ptr :=
  match fuel with
  | O => stuck
  | S fuel' =>
      r ← deref startFrom;
      if decide (uuid r = id) then mret startFrom
      else searchChildren (λ child, getRevisionById fuel' child id) (children r)
  end.

(** [recursiveGetHashes]: the hashes of the subtree, children first. *)
Fixpoint recursiveGetHashes (fuel : nat) (st : gmap Ptr Revision) (revision : Ptr) : option (list string) :=
  match fuel with
  | O => None
  | S fuel' =>
      r ← st !! revision;
      subs ← mapM (recursiveGetHashes fuel' st) (children r);
      revisionSum ← Revision_calculateHash fuel st revision;
      Some (concat subs ++ [Juce.String_of_uint32 revisionSum])
  end.

Definition calculateHash (fuel : nat) (s : VCState) : option string :=
  ids ← recursiveGetHashes fuel (store s) (rootRevision s);
  Some (Juce.String_of_uint32
          (CompileTimeHash (Juce.joinIntoString "" (Juce.sortIgnoreCase ids)))).

Definition moveHead (revision : Ptr) : M unit :=
  e ← isEmpty revision;
  if negb e then
    head_moveTo revision;;
    sendChangeMessage
  else mret tt.

Definition checkout (revision : Ptr) : M unit :=
  e ← isEmpty revision;
  if negb e then
    head_moveTo revision;;
    modify (λ s, set_live (Head_checkout (head s)) s);;
    sendChangeMessage
  else mret tt.

(** [head.moveTo (headRevision)] with the pointer read back from the head:
    moving to a null pointer is a run that goes wrong. *)
Definition head_moveBack (headRevision : option Ptr) : M unit :=
  match headRevision with
  | Some r => head_moveTo r
  | None => stuck
  end.


Definition appendSubtree (fuel : nat) (subtree : Ptr) (appendRevisionId : string) : M unit :=
  if decide (appendRevisionId = "") then
    mret tt
  else
    s ← get;
    headRevision ← getRevisionById fuel (rootRevision s) appendRevisionId;
    e ← isEmpty headRevision;
    if negb e then
      Revision_addChild headRevision subtree;;
      sendChangeMessage
    else mret tt.

(** The selection loop of [resetChanges]: [None] stands for its
    [return false]. *)
Fixpoint selectChanges (allItems : list RevisionItem) (selectedItems : Juce.SparseSet)
    (changesToReset : list RevisionItem) : option (list RevisionItem) :=
  match selectedItems with
  | [] => Some changesToReset
  | index :: rest =>
      if (Z.of_nat (length allItems) <=? index)%Z then None
      else selectChanges allItems rest
             (match Juce.arrayGet allItems index with
              | Some item => changesToReset ++ [item]
              | None => changesToReset
              end)
  end.

Definition resetChanges (selectedItems : Juce.SparseSet) : M bool :=
  if decide (length selectedItems = 0) then mret false
  else
    allChanges ← head_getDiff;
    all ← deref allChanges;
    match selectChanges (items all) selectedItems [] with
    | None => mret false
    | Some changesToReset =>
        modify (λ s, set_live (Head_resetChanges changesToReset (head s)) s);;
        mret true
    end.

Definition resetAllChanges : M bool :=
  allChanges ← head_getDiff;
  all ← deref allChanges;
  modify (λ s, set_live (Head_resetChanges (items all) (head s)) s);;
  mret true.

(** The selection loop of [commit]; the result tells whether the loop ran to
    its end ([false]: it left through [return false]). *)
Fixpoint commitSelect (newRevision : Ptr) (allItems : list RevisionItem)
    (selectedItems : Juce.SparseSet) : M bool :=
  match selectedItems with
  | [] => mret true
  | index :: rest =>
      if (Z.of_nat (length allItems) <=? index)%Z then mret false
      else
        match Juce.arrayGet allItems index with
        | Some item => Revision_addItem newRevision item
        | None => mret tt
        end;;
        commitSelect newRevision allItems rest
  end.

Definition commit (selectedItems : Juce.SparseSet) (msg : string) : M bool :=
  if decide (length selectedItems = 0) then mret false
  else
    newRevision ← Revision_new msg;
    allChanges ← head_getDiff;
    all ← deref allChanges;
    completed ← commitSelect newRevision (items all) selectedItems;
    if negb completed then mret false
    else
      headingRevision ← head_getHeadingRevision;
      match headingRevision with
      | None => mret false
      | Some heading =>
          Revision_addChild heading newRevision;;
          head_moveTo newRevision;;
          Revision_flush newRevision;;
          _ ← pack_flush;
          sendChangeMessage;;
          mret true
      end.

(** The selection loop of [stash]; unlike [commit] it hands the array
    element to [addItem] unchecked, so a null element makes the run go
    wrong. *)
Fixpoint stashSelect (newRevision : Ptr) (allItems : list RevisionItem)
    (selectedItems : Juce.SparseSet) : M bool :=
  match selectedItems with
  | [] => mret true
  | index :: rest =>
      if (Z.of_nat (length allItems) <=? index)%Z then mret false
      else
        item ← liftOption (Juce.arrayGet allItems index);
        Revision_addItem newRevision item;;
        stashSelect newRevision allItems rest
  end.

Definition stash (selectedItems : Juce.SparseSet) (msg : string) (shouldKeepChanges : bool) : M bool :=
  if decide (length selectedItems = 0) then mret false
  else
    newRevision ← Revision_new msg;
    allChanges ← head_getDiff;
    all ← deref allChanges;
    completed ← stashSelect newRevision (items all) selectedItems;
    if negb completed then mret false
    else
      modify (set_stashes (Stashes_addStash newRevision));;
      (if negb shouldKeepChanges then _ ← resetChanges selectedItems; mret tt else mret tt);;
      sendChangeMessage;;
      mret true.

(** [applyStash (const Revision::Ptr, bool)]. *)
Definition applyStash (stashed : Ptr) (shouldKeepStash : bool) : M bool :=
  e ← isEmpty stashed;
  if negb e then
    headRevision ← head_getHeadingRevision;
    head_moveTo stashed;;
    modify (λ s, set_live (Head_cherryPickAll (head s)) s);;
    head_moveBack headRevision;;
    (if negb shouldKeepStash then modify (set_stashes (Stashes_removeStash stashed)) else mret tt);;
    sendChangeMessage;;
    mret true
  else mret false.

(** [applyStash (const String &, bool)]. *)
Definition applyStashNamed (stashId : string) (shouldKeepStash : bool) : M bool :=
  stashed ← Stashes_getUserStashWithName stashId;
  applyStash stashed shouldKeepStash.

Definition hasQuickStash : M bool :=
  s ← get; mret (negb (Stashes_hasQuickStash (stashes s))).

Definition quickStashAll : M bool :=
  present ← hasQuickStash;
  if (present : bool) then mret false
  else
    allChanges ← head_getDiff;
    modify (set_stashes (Stashes_storeQuickStash allChanges));;
    _ ← resetAllChanges;
    sendChangeMessage;;
    mret true.

(** [tempHead] is a copy of the head: what it does to its own fields is
    lost with it, what it does to the live items stays. *)
Definition applyQuickStash : M bool :=
  present ← hasQuickStash;
  if negb present then mret false
  else
    s ← get;
    let tempHead := head s in
    quick ← Stashes_getQuickStash;
    q ← deref quick;
    modify (set_live (Head_mergeStateWith q));;
    modify (set_live (Head_cherryPickAll tempHead));;
    modify (set_stashes Stashes_resetQuickStash);;
    sendChangeMessage;;
    mret true.

(** [changeListenerCallback]: the project changed. *)
Definition changeListenerCallback : M unit :=
  modify (set_head (Head_setDiffOutdated true)).

(** *** Serializable *)

(** Modelled from the spec: Revision.cpp is not among the sources.
    [serialize] writes the id, the message and the items of the revision and,
    nested, the nodes of its children. *)
Fixpoint Revision_serialize (fuel : nat) (st : gmap Ptr Revision) (p : Ptr) : option RevisionNode :=
  match fuel with
  | O => None
  | S fuel' =>
      r ← st !! p;
      kids ← mapM (Revision_serialize fuel' st) (children r);
      Some (mkRevisionNode (uuid r) (message r) (items r) kids)
  end.

(** One after the other, collecting the results. *)
Definition forEach {A B} (f : A → M B) : list A → M (list B) :=
  fix go (l : list A) : M (list B) :=
    match l with
    | [] => mret []
    | x :: rest => y ← f x; ys ← go rest; mret (y :: ys)
    end.

(** Modelled from the spec: Revision.cpp is not among the sources.  A new
    revision that has deserialized the node: its children are created from
    the nested nodes, and the new object holds them. *)
Fixpoint Revision_load (n : RevisionNode) : M Ptr :=
  match n with
  | mkRevisionNode id msg its kids =>
      cs ← forEach Revision_load kids;
      s ← get;
      let p := fresh (dom (store s)) in
      modify (set_store (insert p (mkRevision id msg its cs)));;
      mret p
  end.

(** Modelled from the spec: Revision.cpp is not among the sources.
    [deserialize] on an existing revision: the object takes the id, message
    and items of the node, and children created from the nested nodes. *)
Definition Revision_deserialize (p : Ptr) (n : RevisionNode) : M unit :=
  match n with
  | mkRevisionNode id msg its kids =>
      cs ← forEach Revision_load kids;
      Revision_update p (λ _, mkRevision id msg its cs)
  end.

(** Modelled from the spec: StashesRepository.cpp is not among the
    sources.  The stash-list node holds the nodes of the stashes. *)
Definition Stashes_serialize (fuel : nat) (st : gmap Ptr Revision) (sr : StashesRepository)
    : option (list RevisionNode * option RevisionNode) :=
  named ← mapM (Revision_serialize fuel st) (userStashes sr);
  quick ← match quickStash sr with
          | Some q => Some <$> Revision_serialize fuel st q
          | None => Some None
          end;
  Some (named, quick).

(** Modelled from the spec: StashesRepository.cpp is not among the
    sources.  Every stash of the node is created anew. *)
Definition Stashes_deserialize (node : list RevisionNode * option RevisionNode) : M unit :=
  named ← forEach Revision_load node.1;
  quick ← match node.2 with
          | Some k => q ← Revision_load k; mret (Some q)
          | None => mret None
          end;
  modify (set_stashes (λ _, mkStashes named quick)).

(** Modelled from the spec: StashesRepository.cpp is not among the sources. *)
Definition Stashes_reset (sr : StashesRepository) : StashesRepository := mkStashes [] None.

(** Modelled from the spec: Pack.cpp is not among the sources.  The pack
    node is the dictionary of payloads. *)
Definition Pack_serialize (pk : Pack) : gmap N Payload := entries pk.

(** Modelled from the spec: Pack.cpp is not among the sources. *)
Definition Pack_deserialize (node : gmap N Payload) : Pack := mkPack node ∅.

(** [serialize]; reading the id of the heading revision through a null
    pointer is a run that goes wrong. *)
Definition serialize (fuel : nat) (s : VCState) : option VersionControlNode :=
  heading ← headingRevision (head s);
  headingObject ← store s !! heading;
  rootNode ← Revision_serialize fuel (store s) (rootRevision s);
  stashNode ← Stashes_serialize fuel (store s) (stashes s);
  Some (mkVCNode (uuid headingObject) rootNode stashNode (Pack_serialize (pack s)) (head s)).

Definition reset : M unit :=
  s ← get;
  Revision_reset (rootRevision s);;
  modify (set_head Head_reset);;
  modify (set_stashes Stashes_reset);;
  modify (set_pack Pack_reset).

Definition deserialize (fuel : nat) (tree : ValueTree) : M unit :=
  reset;;
  match versionControlRoot tree with
  | None => mret tt
  | Some root =>
      let headId := headRevisionId root in
      s ← get;
      Revision_deserialize (rootRevision s) (revisionNode root);;
      Stashes_deserialize (stashesNode root);;
      modify (set_pack (λ _, Pack_deserialize (packNode root)));;
      modify (set_head (Head_deserialize (headNode root)));;
      headRevision ← getRevisionById fuel (rootRevision s) headId;
      e ← isEmpty headRevision;
      if negb e then modify (set_head (Head_pointTo headRevision))
      else mret tt
  end.

(** [this->head.getHeadingRevision ()->...]: the heading revision, read to
    call a method on it; through a null pointer the run goes wrong. *)
Definition head_heading : M Ptr :=
  s ← get; liftOption (headingRevision (head s)).

(** [quickAmendItem]; the tracked item is given by its id and the snapshot
    it produces, of which [new RevisionItem (pack, Added, targetItem)] makes
    the record. *)
Definition quickAmendItem (target : Uuid) (snapshot : Payload) : M unit :=
  let revisionRecord := mkItem target Added snapshot in
  heading ← head_heading;
  Revision_addItem heading revisionRecord;;
  heading ← head_heading;
  head_moveTo heading;;
  heading ← head_heading;
  Revision_flush heading;;
  _ ← pack_flush;
  sendChangeMessage.

(** [updateShallowRevisionData]: a null pointer, whatever it is given. *)
Definition updateShallowRevisionData (id : string) (data : ValueTree) : M (option Ptr) :=
  mret None.

(** ** Vocabulary of the statements *)

(** The state [s'] differs from [s] at most by objects created since, and by
    what the head caches (its index and its diff): every object of [s] is
    untouched, and so are the pack, the heading revision, the stashes, the
    root, the live items and the change messages sent. *)
Definition preserves (s s' : VCState) : Prop :=
  store s ⊆ store s' ∧ pack s' = pack s ∧
  headingRevision (head s') = headingRevision (head s) ∧
  stashes s' = stashes s ∧ rootRevision s' = rootRevision s ∧
  live s' = live s ∧ changes s' = changes s.

(** The diff the head caches, if any, is an object of the store. *)
Definition diffCached (s : VCState) : Prop :=
  ∀ d, diff (head s) = Some d → is_Some (store s !! d).

(** The objects below [p] form a tree of height at most [n]: every pointer
    on the way down refers to an object of the store. *)
Fixpoint treeWithin (st : gmap Ptr Revision) (n : nat) (p : Ptr) : Prop :=
  match n with
  | O => False
  | S n' => ∃ r, st !! p = Some r ∧ Forall (treeWithin st n') (children r)
  end.

(** [q] is [p] or one of its descendants. *)
Inductive reachable (st : gmap Ptr Revision) : Ptr → Ptr → Prop :=
| reachable_here (p : Ptr) : reachable st p p
| reachable_below (p c q : Ptr) (r : Revision) :
    st !! p = Some r → c ∈ children r → reachable st c q → reachable st p q.

(** No revision of the tree below [p] carries the id. *)
Definition idAbsent (st : gmap Ptr Revision) (p : Ptr) (id : string) : Prop :=
  ∀ q r, reachable st p q → st !! q = Some r → uuid r ≠ id.

(** The pointer [p] refers to an empty sentinel created on the way from [s]
    to [s']. *)
Definition newSentinel (s : VCState) (p : Ptr) (s' : VCState) : Prop :=
  store s !! p = None ∧ (∃ u, store s' !! p = Some (emptyRevision u)) ∧
  head s' = head s ∧ preserves s s'.

(** A string of decimal digits. *)
Fixpoint digits (str : string) : Prop :=
  match str with
  | EmptyString => True
  | String c rest => (48 ≤ N_of_ascii c ≤ 57)%N ∧ digits rest
  end.

(** Two revisions that differ in the order of their children only. *)
Definition sameButChildOrder (r r' : Revision) : Prop :=
  uuid r = uuid r' ∧ message r = message r' ∧ items r = items r' ∧
  children r ≡ₚ children r'.

(** Two histories that differ in the order children were inserted only, at
    any number of revisions. *)
Definition childOrderOnly (st st' : gmap Ptr Revision) : Prop :=
  ∀ p, option_Forall2 sameButChildOrder (st !! p) (st' !! p).

(** Related element by element, after rearranging the first list. *)
Definition permRel {A} (R : relation A) (xs ys : list A) : Prop :=
  ∃ zs, xs ≡ₚ zs ∧ Forall2 R zs ys.

(** The object at [p] and the objects below it are laid out as the node
    says, and none of them is an object of [st0]. *)
Inductive represents (st0 st : gmap Ptr Revision) : Ptr → RevisionNode → Prop :=
| represents_node (p : Ptr) (r : Revision) (kids : list RevisionNode) :
    st0 !! p = None →
    st !! p = Some r →
    Forall2 (represents st0 st) (children r) kids →
    represents st0 st p (mkRevisionNode (uuid r) (message r) (items r) kids).

(** The lookup of the id from the root of [s] finds a revision that is not
    empty. *)
Definition headingFound (fuel : nat) (id : string) (s : VCState) : Prop :=
  ∃ q s1 r, getRevisionById fuel (rootRevision s) id s = Some (q, s1) ∧
            store s1 !! q = Some r ∧ Revision_isEmpty r = false.

(** What a search for the id, started in [s], came back with: a revision
    that reports [empty], carrying the id if it is not empty; the search has
    created objects at most. *)
Definition searchOutcome (id : string) (s : VCState) (res : option (Ptr * VCState))
    (empty : bool) : Prop :=
  match res with
  | Some (q, s') =>
      preserves s s' ∧ head s' = head s ∧
      ∃ r, store s' !! q = Some r ∧ Revision_isEmpty r = empty ∧
           (empty = false → uuid r = id)
  | None => False
  end.

(** Two searches that fare alike. *)
Definition sameSearch (id : string) (s1 s2 : VCState) (res1 res2 : option (Ptr * VCState)) : Prop :=
  (res1 = None ∧ res2 = None) ∨
  ∃ empty, searchOutcome id s1 res1 empty ∧ searchOutcome id s2 res2 empty.


(** ** Properties *)

(** The one thing the design document says of [Revision::isEmpty]: the
    revision [new Revision (pack)] creates, the sentinel of a failed lookup,
    reports empty. *)
Hypothesis isEmpty_sentinel : ∀ u, Revision_isEmpty (emptyRevision u) = true.

Ltac run_unfold :=
  unfold mbind, M_bind, mret, M_ret, get, modify, deref, liftOption, stuck.

Lemma isEmpty_run (p : Ptr) (r : Revision) (s : VCState) :
  store s !! p = Some r → isEmpty p s = Some (Revision_isEmpty r, s).
Proof. intros Hp. unfold isEmpty. run_unfold. by rewrite Hp. Qed.

(** C8, as the code has it: [moveHead] and [checkout] do nothing at all for
    an empty revision; for any other revision they move the head onto it and
    send one change message, and [checkout] first overwrites the live items
    with the index of the moved head.  Both are [void] methods. *)
Theorem moveHead_checkout_spec (revision : Ptr) (r : Revision) (s : VCState) :
  store s !! revision = Some r →
  if Revision_isEmpty r then
    moveHead revision s = Some (tt, s) ∧ checkout revision s = Some (tt, s)
  else
    let moved := Head_moveTo (store s) revision (head s) in
    headingRevision moved = Some revision ∧
    moveHead revision s =
      Some (tt, mkVC (store s) (pack s) moved (stashes s) (rootRevision s)
                     (live s) (changes s ++ [Some revision])) ∧
    checkout revision s =
      Some (tt, mkVC (store s) (pack s) moved (stashes s) (rootRevision s)
                     (Head_checkout moved (live s)) (changes s ++ [Some revision])).
Proof.
  intros Hp. unfold moveHead, checkout, head_moveTo, sendChangeMessage.
  run_unfold. rewrite !(isEmpty_run _ _ _ Hp).
  destruct (Revision_isEmpty r); simpl; done.
Qed.

Lemma fresh_unused (st : gmap Ptr Revision) : st !! fresh (dom st) = None.
Proof. apply not_elem_of_dom, is_fresh. Qed.

Lemma insert_fresh_subseteq (st : gmap Ptr Revision) (r : Revision) :
  st ⊆ <[fresh (dom st) := r]> st.
Proof. apply insert_subseteq, fresh_unused. Qed.

Lemma preserves_refl (s : VCState) : preserves s s.
Proof. by repeat split. Qed.

Lemma preserves_trans (s1 s2 s3 : VCState) :
  preserves s1 s2 → preserves s2 s3 → preserves s1 s3.
Proof.
  intros (?&?&?&?&?&?&?) (?&?&?&?&?&?&?).
  repeat split; try congruence. by etrans.
Qed.

Lemma Revision_new_run (msg : string) (s : VCState) :
  ∃ p s', Revision_new msg s = Some (p, s') ∧
          store s !! p = None ∧
          store s' = <[p := mkRevision (freshUuid p) msg [] []]> (store s) ∧
          head s' = head s ∧ preserves s s'.
Proof.
  eexists _, _. split; [reflexivity|]. unfold preserves. simpl.
  repeat split; auto using fresh_unused, insert_fresh_subseteq.
Qed.

(** [getDiff] hands out a diff that is an object of the store and is cached
    from then on; it touches nothing but the caches of the head. *)
Lemma head_getDiff_run (s : VCState) :
  diffCached s →
  ∃ d s', head_getDiff s = Some (d, s') ∧ is_Some (store s' !! d) ∧
          diff (head s') = Some d ∧ diffOutdated (head s') = false ∧
          preserves s s'.
Proof.
  intros Hc. unfold head_getDiff, head_moveTo. run_unfold.
  destruct (indexValid (head s)) eqn:Ev;
    [|destruct (headingRevision (head s)) as [r|] eqn:Eh]; simpl;
    (destruct (diff (head s)) as [d|] eqn:Ed;
       [destruct (diffOutdated (head s)) eqn:Eo|]); simpl;
    eexists _, _; (split; [reflexivity|]); unfold preserves; simpl;
    rewrite ?lookup_insert_eq, ?Eh;
    repeat split; eauto using insert_fresh_subseteq.
Qed.

Lemma bind_run {A B} (m : M A) (f : A → M B) (s s' : VCState) (a : A) :
  m s = Some (a, s') → (m ≫= f) s = f a s'.
Proof. intros H. unfold mbind, M_bind. by rewrite H. Qed.

Lemma resetAllChanges_run (s : VCState) :
  diffCached s →
  ∃ s', resetAllChanges s = Some (true, s') ∧
        store s ⊆ store s' ∧ pack s' = pack s ∧
        headingRevision (head s') = headingRevision (head s) ∧
        stashes s' = stashes s ∧ rootRevision s' = rootRevision s ∧
        changes s' = changes s.
Proof.
  intros Hc. destruct (head_getDiff_run s Hc)
    as (d & s1 & Hrun & [all Hall] & _ & _ & Hsub & ? & ? & ? & ? & ? & ?).
  unfold resetAllChanges. rewrite (bind_run _ _ _ _ _ Hrun).
  run_unfold. rewrite Hall. simpl. eexists. split; [reflexivity|]. simpl.
  by repeat split.
Qed.


(** C6, as the code has it: with an empty target id [appendSubtree] returns
    normally, having changed nothing and sent no change message. *)
Theorem appendSubtree_empty_id_noop (fuel : nat) (subtree : Ptr) (s : VCState) :
  appendSubtree fuel subtree "" s = Some (tt, s).
Proof. reflexivity. Qed.

Lemma find_stash_none (name : string) (s : VCState) :
  (∀ p r, p ∈ userStashes (stashes s) → store s !! p = Some r → message r ≠ name) →
  List.find (λ p, bool_decide (message <$> store s !! p = Some name))
            (userStashes (stashes s)) = None.
Proof.
  intros Hno. destruct (List.find _ _) as [p|] eqn:E; [|done].
  apply find_some in E as [Hin Hb]. apply bool_decide_eq_true in Hb.
  apply list_elem_of_In in Hin.
  destruct (store s !! p) as [r|] eqn:Er; [|done].
  simpl in Hb. injection Hb as Hb. by destruct (Hno p r Hin Er).
Qed.

(** C10: applying a stash by a name no stored stash carries returns false;
    the head stays on its revision, no stash is removed, no change message
    is sent, and the live items, the pack and every existing revision are as
    before. *)
Theorem applyStashNamed_unknown (name : string) (shouldKeepStash : bool) (s : VCState) :
  (∀ p r, p ∈ userStashes (stashes s) → store s !! p = Some r → message r ≠ name) →
  ∃ s', applyStashNamed name shouldKeepStash s = Some (false, s') ∧
        head s' = head s ∧ stashes s' = stashes s ∧ changes s' = changes s ∧
        live s' = live s ∧ pack s' = pack s ∧ rootRevision s' = rootRevision s ∧
        store s ⊆ store s'.
Proof.
  intros Hno. unfold applyStashNamed, Stashes_getUserStashWithName, applyStash.
  run_unfold. rewrite (find_stash_none _ _ Hno). simpl.
  unfold isEmpty. run_unfold. simpl. rewrite lookup_insert_eq. simpl.
  change (mkRevision ?u "" [] []) with (emptyRevision u).
  rewrite isEmpty_sentinel. simpl. eexists. split; [reflexivity|]. simpl.
  repeat split; auto using insert_fresh_subseteq.
Qed.

(** When [hasQuickStash ()] answers false, [quickStashAll] goes through: the
    diff is offered to the quick slot, all changes are reset, one change
    message is sent. *)
Lemma quickStashAll_proceeds (s : VCState) :
  hasQuickStash s = Some (false, s) → diffCached s →
  ∃ d s', quickStashAll s = Some (true, s') ∧
          stashes s' = Stashes_storeQuickStash d (stashes s) ∧
          changes s' = changes s ++ [headingRevision (head s)] ∧
          headingRevision (head s') = headingRevision (head s) ∧
          store s ⊆ store s' ∧ pack s' = pack s ∧ rootRevision s' = rootRevision s.
Proof.
  intros Hhas Hc.
  destruct (head_getDiff_run s Hc)
    as (d & s1 & Hrun & Hd & Hdiff & _ & Hsub & Hpack1 & Hh1 & Hst & Hroot1 & _ & Hch1).
  unfold quickStashAll.
  rewrite (bind_run _ _ _ _ _ Hhas), (bind_run _ _ _ _ _ Hrun).
  set (s2 := set_stashes (Stashes_storeQuickStash d) s1).
  assert (Hc2 : diffCached s2).
  { intros d' Hd'. simpl in *. rewrite Hdiff in Hd'. by injection Hd' as <-. }
  destruct (resetAllChanges_run s2 Hc2)
    as (s3 & Hrun3 & Hsub3 & Hpack3 & Hh3 & Hst3 & Hroot3 & Hch3).
  assert (Hm : modify (set_stashes (Stashes_storeQuickStash d)) s1 = Some (tt, s2)) by done.
  rewrite (bind_run _ _ _ _ _ Hm), (bind_run _ _ _ _ _ Hrun3).
  unfold sendChangeMessage. run_unfold. simpl.
  exists d. eexists. split; [reflexivity|]. simpl.
  split; [by rewrite Hst3; unfold s2; simpl; rewrite Hst|].
  split; [by rewrite Hch3, Hh3; unfold s2; simpl; rewrite Hch1, Hh1|].
  split; [by rewrite Hh3; unfold s2; simpl|].
  split; [by etrans; [exact Hsub | exact Hsub3]|].
  split; [by rewrite Hpack3; unfold s2; simpl | by rewrite Hroot3; unfold s2; simpl].
Qed.

(** What the design document says of the quick-stash query (4.6 and 8):
    [hasQuickStash ()] of the orchestrator, which answers with the negation
    of the repository's answer (line 266), reports whether a quick stash
    exists. *)
Hypothesis hasQuickStash_reports :
  ∀ sr, negb (Stashes_hasQuickStash sr) = bool_decide (is_Some (quickStash sr)).



(** The part of C2 the code keeps: an empty selection is refused before
    anything is touched. *)
Lemma commit_empty_selection (msg : string) (s : VCState) :
  commit [] msg s = Some (false, s).
Proof. reflexivity. Qed.

(** The part of C2 the code keeps: the selection loop leaves through
    [return false] when some selected index is at or above the number of diff
    items, having written to the new revision only. *)
Lemma commitSelect_rejects (newRevision : Ptr) (allItems : list RevisionItem)
    (selectedItems : list Z) (s : VCState) :
  Exists (λ index, (Z.of_nat (length allItems) ≤ index)%Z) selectedItems →
  is_Some (store s !! newRevision) →
  ∃ s', commitSelect newRevision allItems selectedItems s = Some (false, s') ∧
        (∀ p, p ≠ newRevision → store s' !! p = store s !! p) ∧
        pack s' = pack s ∧ head s' = head s ∧ stashes s' = stashes s ∧
        rootRevision s' = rootRevision s ∧ live s' = live s ∧
        changes s' = changes s.
Proof.
  intros Hex. revert s.
  induction selectedItems as [|index rest IH]; intros s [r Hr].
  { by apply Exists_nil in Hex. }
  simpl. destruct (Z.leb_spec (Z.of_nat (length allItems)) index) as [Hle|Hlt].
  { eexists. split; [reflexivity|]. by repeat split. }
  apply Exists_cons in Hex as [Hex|Hex]; [lia|].
  destruct (Juce.arrayGet allItems index) as [item|].
  - unfold Revision_addItem, Revision_update. run_unfold. rewrite Hr. simpl.
    match goal with |- context [commitSelect _ _ rest ?t] =>
      destruct (IH Hex t) as (s' & Hrun & Hst & ? & ? & ? & ? & ? & ?) end.
    { simpl. rewrite lookup_insert_eq. eauto. }
    exists s'. split; [done|]. repeat split; try done.
    intros p Hp. rewrite (Hst p Hp). simpl. by rewrite lookup_insert_ne.
  - run_unfold. simpl. apply IH; eauto.
Qed.

(** The part of C2 the code keeps: when some selected index is at or above
    the number of items of the diff the head hands out, [commit] returns
    false; the objects of the store, the root, the heading revision, the pack
    and the stashes are as before and no change message is sent. *)
Lemma commit_rejects (selectedItems : list Z) (msg : string) (s s1 s2 : VCState)
    (p d : Ptr) (all : Revision) :
  Revision_new msg s = Some (p, s1) →
  head_getDiff s1 = Some (d, s2) →
  store s2 !! d = Some all →
  diffCached s →
  Exists (λ index, (Z.of_nat (length (items all)) ≤ index)%Z) selectedItems →
  ∃ s', commit selectedItems msg s = Some (false, s') ∧ preserves s s'.
Proof.
  intros Hnew Hdiff Hall Hc Hex. unfold commit.
  destruct (decide (length selectedItems = 0)) as [Hlen|_].
  { apply nil_length_inv in Hlen as ->. by apply Exists_nil in Hex. }
  destruct (Revision_new_run msg s) as (p' & s1' & Hnew' & Hfresh & Hst1 & Hhead1 & Hpre1).
  rewrite Hnew in Hnew'. injection Hnew' as <- <-.
  assert (Hc1 : diffCached s1).
  { intros d' Hd'. rewrite Hhead1 in Hd'. destruct (Hc d' Hd') as [x Hx].
    exists x. by eapply lookup_weaken, Hpre1. }
  destruct (head_getDiff_run s1 Hc1) as (d' & s2' & Hdiff' & _ & _ & _ & Hpre2).
  rewrite Hdiff in Hdiff'. injection Hdiff' as <- <-.
  rewrite (bind_run _ _ _ _ _ Hnew), (bind_run _ _ _ _ _ Hdiff).
  unfold deref at 1. rewrite (bind_run _ (λ all, _) s2 s2 all)
    by (unfold liftOption; by rewrite Hall).
  destruct (commitSelect_rejects p (items all) selectedItems s2 Hex)
    as (s3 & Hsel & Hst3 & Hpack & Hhead & Hstash & Hroot & Hlive & Hch).
  { exists (mkRevision (freshUuid p) msg [] []).
    eapply lookup_weaken; [|apply Hpre2]. rewrite Hst1. apply lookup_insert_eq. }
  rewrite (bind_run _ _ _ _ _ Hsel). simpl. exists s3. split; [done|].
  pose proof (preserves_trans _ _ _ Hpre1 Hpre2) as (Hsub & ? & ? & ? & ? & ? & ?).
  repeat split; try congruence.
  apply map_subseteq_spec. intros q x Hq.
  rewrite Hst3 by (intros ->; congruence). by eapply lookup_weaken.
Qed.

(** C2, where the code departs from it: a negative index is out of range of
    the diff, yet it passes the check [index >= size], selects a null item
    and is skipped.  [commit] of the selection [{-1}] returns true: it
    attaches a new revision below the heading revision, moves the head onto
    it and sends a change message. *)
Theorem commit_negative_index (msg : string) (heading : Ptr) (hr : Revision) (s : VCState) :
  diffCached s →
  headingRevision (head s) = Some heading →
  store s !! heading = Some hr →
  ∃ p s', commit [(-1)%Z] msg s = Some (true, s') ∧
          store s !! p = None ∧
          store s' !! heading =
            Some (mkRevision (uuid hr) (message hr) (items hr) (children hr ++ [p])) ∧
          store s' !! p = Some (mkRevision (freshUuid p) msg [] []) ∧
          headingRevision (head s') = Some p ∧
          changes s' = changes s ++ [Some p].
Proof.
  intros Hc Hh Hhr. unfold commit. simpl.
  destruct (Revision_new_run msg s) as (p & s1 & Hnew & Hfresh & Hst1 & Hhead1 & Hpre1).
  rewrite (bind_run _ _ _ _ _ Hnew).
  assert (Hc1 : diffCached s1).
  { intros d Hd. rewrite Hhead1 in Hd. destruct (Hc d Hd) as [x Hx].
    exists x. by eapply lookup_weaken, Hpre1. }
  destruct (head_getDiff_run s1 Hc1)
    as (d & s2 & Hdiff & [all Hall] & _ & _ & Hpre2).
  rewrite (bind_run _ _ _ _ _ Hdiff).
  pose proof (preserves_trans _ _ _ Hpre1 Hpre2) as (Hsub & _ & Hh2 & _).
  assert (Hp2 : store s2 !! p = Some (mkRevision (freshUuid p) msg [] [])).
  { eapply lookup_weaken; [|apply Hpre2]. rewrite Hst1. apply lookup_insert_eq. }
  assert (Hhr2 : store s2 !! heading = Some hr) by (by eapply lookup_weaken).
  assert (Hne : heading ≠ p) by (intros ->; congruence).
  unfold head_getHeadingRevision, Revision_addChild, Revision_update,
    head_moveTo, Revision_flush, sendChangeMessage.
  assert (Hneg : (Z.of_nat (length (items all)) <=? -1)%Z = false) by (apply Z.leb_gt; lia).
  run_unfold. rewrite Hall. simpl. rewrite Hneg. simpl.
  rewrite Hh2, Hh. simpl. rewrite Hhr2. simpl.
  rewrite lookup_insert_ne by done. rewrite Hp2. simpl.
  exists p. eexists. split; [reflexivity|]. simpl.
  rewrite lookup_insert_eq, lookup_insert_ne, Hp2 by done.
  destruct Hpre2 as (_ & _ & _ & _ & _ & _ & Hch2).
  destruct Hpre1 as (_ & _ & _ & _ & _ & _ & Hch1).
  repeat split; try done. by rewrite Hch2, Hch1.
Qed.

Lemma newSentinel_isEmpty (s s' : VCState) (p : Ptr) :
  newSentinel s p s' → isEmpty p s' = Some (true, s').
Proof.
  intros (_ & [u Hu] & _). rewrite (isEmpty_run _ _ _ Hu).
  by rewrite isEmpty_sentinel.
Qed.

Lemma newSentinel_after (s1 s2 s3 : VCState) (p : Ptr) :
  preserves s1 s2 → head s2 = head s1 → newSentinel s2 p s3 → newSentinel s1 p s3.
Proof.
  intros Hpre Hh (Hnone & Hu & Hh' & Hpre'). repeat split.
  - eapply lookup_weaken_None; [exact Hnone | apply Hpre].
  - done.
  - congruence.
  - apply (preserves_trans _ _ _ Hpre Hpre').
  - apply (preserves_trans _ _ _ Hpre Hpre').
  - apply (preserves_trans _ _ _ Hpre Hpre').
  - apply (preserves_trans _ _ _ Hpre Hpre').
  - apply (preserves_trans _ _ _ Hpre Hpre').
  - apply (preserves_trans _ _ _ Hpre Hpre').
  - apply (preserves_trans _ _ _ Hpre Hpre').
Qed.

Lemma Revision_new_sentinel (s : VCState) :
  ∃ p s', Revision_new "" s = Some (p, s') ∧ newSentinel s p s'.
Proof.
  destruct (Revision_new_run "" s) as (p & s' & Hrun & Hnone & Hst & Hh & Hpre).
  exists p, s'. split; [done|]. repeat split; try done; try apply Hpre.
  exists (freshUuid p). rewrite Hst. apply lookup_insert_eq.
Qed.

(** The loop over the children, when every search comes back with a new
    sentinel: so does the loop. *)
Lemma searchChildren_absent (st0 : gmap Ptr Revision) (search : Ptr → M Ptr) (cs : list Ptr) :
  (∀ c, c ∈ cs → ∀ s, st0 ⊆ store s →
        ∃ p s', search c s = Some (p, s') ∧ newSentinel s p s') →
  ∀ s, st0 ⊆ store s →
       ∃ p s', searchChildren search cs s = Some (p, s') ∧ newSentinel s p s'.
Proof.
  induction cs as [|c rest IH]; intros Hsearch s Hsub; simpl.
  { apply Revision_new_sentinel. }
  destruct (Hsearch c (list_elem_of_here _ _) s Hsub) as (p1 & s1 & Hrun & Hnew).
  rewrite (bind_run _ _ _ _ _ Hrun).
  rewrite (bind_run _ _ _ _ _ (newSentinel_isEmpty _ _ _ Hnew)). simpl.
  destruct Hnew as (_ & _ & Hh1 & Hpre1).
  destruct (IH (λ c' Hc', Hsearch c' (list_elem_of_further _ _ _ Hc')) s1)
    as (p & s' & Hrun' & Hnew').
  { etrans; [exact Hsub | apply Hpre1]. }
  exists p, s'. split; [done|]. by eapply newSentinel_after.
Qed.

Lemma getRevisionById_absent_from (st0 : gmap Ptr Revision) (id : string) (fuel : nat) :
  ∀ root, treeWithin st0 fuel root → idAbsent st0 root id →
  ∀ s, st0 ⊆ store s →
       ∃ p s', getRevisionById fuel root id s = Some (p, s') ∧ newSentinel s p s'.
Proof.
  induction fuel as [|fuel IH]; intros root Htree Habs s Hsub.
  { destruct Htree. }
  destruct Htree as (r & Hr & Hkids). simpl.
  unfold deref. run_unfold. rewrite (lookup_weaken _ _ _ _ Hr Hsub). simpl.
  destruct (decide (uuid r = id)) as [Heq|_].
  { destruct (Habs root r (reachable_here _ _) Hr Heq). }
  apply (searchChildren_absent st0); [|done].
  intros c Hc. apply IH.
  - by apply (proj1 (Forall_forall _ _) Hkids).
  - intros q rq Hq. apply Habs. by eapply reachable_below.
Qed.

(** C9: when no revision of the tree below the root carries the id,
    [getRevisionById] returns a pointer that is not null: it refers to a
    revision created by the search itself, the empty sentinel, and
    [isEmpty] holds of it.  Enough fuel for the height of the tree is enough
    for the search to return, and the search touches no existing object. *)
Theorem getRevisionById_absent (fuel : nat) (root : Ptr) (id : string) (s : VCState) :
  treeWithin (store s) fuel root →
  idAbsent (store s) root id →
  ∃ p s', getRevisionById fuel root id s = Some (p, s') ∧
          newSentinel s p s' ∧ isEmpty p s' = Some (true, s').
Proof.
  intros Htree Habs.
  destruct (getRevisionById_absent_from (store s) id fuel root Htree Habs s)
    as (p & s' & Hrun & Hnew); [done|].
  exists p, s'. eauto using newSentinel_isEmpty.
Qed.

(** The search returns, and with a new sentinel or with a revision of the
    tree that carries the id. *)
Lemma searchChildren_returns (st : gmap Ptr Revision) (id : string) (root : Ptr)
    (search : Ptr → M Ptr) (cs : list Ptr) :
  (∀ c, c ∈ cs → ∀ s, st ⊆ store s →
        ∃ q s', search c s = Some (q, s') ∧ preserves s s' ∧ head s' = head s ∧
                (newSentinel s q s' ∨
                 ∃ r, st !! q = Some r ∧ uuid r = id ∧ reachable st root q)) →
  ∀ s, st ⊆ store s →
       ∃ q s', searchChildren search cs s = Some (q, s') ∧ preserves s s' ∧ head s' = head s ∧
               (newSentinel s q s' ∨
                ∃ r, st !! q = Some r ∧ uuid r = id ∧ reachable st root q).
Proof.
  induction cs as [|c rest IH]; intros Hsearch s Hsub; simpl.
  { destruct (Revision_new_sentinel s) as (q & s' & Hrun & Hnew).
    exists q, s'. split; [done|]. split; [apply Hnew|]. split; [apply Hnew | by left]. }
  destruct (Hsearch c (list_elem_of_here _ _) s Hsub) as (q1 & s1 & Hrun & Hpre1 & Hh1 & Hq1).
  rewrite (bind_run _ _ _ _ _ Hrun).
  assert (Hnext : ∃ q s', searchChildren search rest s1 = Some (q, s') ∧
                          preserves s s' ∧ head s' = head s ∧
                          (newSentinel s q s' ∨
                           ∃ r, st !! q = Some r ∧ uuid r = id ∧ reachable st root q)).
  { destruct (IH (λ c' Hc', Hsearch c' (list_elem_of_further _ _ _ Hc')) s1)
      as (q & s' & Hrun' & Hpre' & Hh' & Hq'); [etrans; [exact Hsub | apply Hpre1]|].
    exists q, s'. split; [done|]. split; [by eapply preserves_trans|].
    split; [congruence|]. destruct Hq' as [Hnew|Hfound]; [left | by right].
    by eapply newSentinel_after. }
  destruct Hq1 as [Hnew|(r & Hr & Hu & Hreach)].
  - by rewrite (bind_run _ _ _ _ _ (newSentinel_isEmpty _ _ _ Hnew)).
  - assert (Hr1 : store s1 !! q1 = Some r).
    { eapply lookup_weaken; [exact Hr|]. etrans; [exact Hsub | apply Hpre1]. }
    rewrite (bind_run _ _ _ _ _ (isEmpty_run _ _ _ Hr1)).
    destruct (Revision_isEmpty r); simpl; [done|].
    exists q1, s1. split; [done|]. split; [done|]. split; [done|]. right. eauto.
Qed.

Lemma getRevisionById_returns (st : gmap Ptr Revision) (id : string) (fuel : nat) :
  ∀ root, treeWithin st fuel root →
  ∀ s, st ⊆ store s →
       ∃ q s', getRevisionById fuel root id s = Some (q, s') ∧
               preserves s s' ∧ head s' = head s ∧
               (newSentinel s q s' ∨
                ∃ r, st !! q = Some r ∧ uuid r = id ∧ reachable st root q).
Proof.
  induction fuel as [|fuel IH]; intros root Htree s Hsub; [done|].
  destruct Htree as (r & Hr & Hkids). simpl. unfold deref. run_unfold.
  rewrite (lookup_weaken _ _ _ _ Hr Hsub). simpl.
  destruct (decide (uuid r = id)) as [Hid|_].
  { exists root, s. split; [done|]. split; [apply preserves_refl|]. split; [done|].
    right. exists r. eauto using reachable_here. }
  apply (searchChildren_returns st id root); [|done].
  intros c Hc s1 Hsub1.
  destruct (IH c (proj1 (Forall_forall _ _) Hkids c Hc) s1 Hsub1)
    as (q & s' & Hrun & Hpre & Hh & Hq).
  exists q, s'. split; [done|]. split; [done|]. split; [done|].
  destruct Hq as [Hnew|(rq & Hrq & Hu & Hreach)]; [by left | right].
  exists rq. eauto using reachable_below.
Qed.

(** The search finds a revision of the tree that is not empty and is the
    only one to carry its id. *)
Lemma getRevisionById_finds (st : gmap Ptr Revision) (h : Ptr) (hr : Revision) (fuel : nat) :
  st !! h = Some hr → Revision_isEmpty hr = false →
  ∀ root, treeWithin st fuel root → reachable st root h →
  (∀ q r, reachable st root q → st !! q = Some r → uuid r = uuid hr → q = h) →
  ∀ s, st ⊆ store s →
       ∃ s', getRevisionById fuel root (uuid hr) s = Some (h, s').
Proof.
  intros Hh Hne. induction fuel as [|fuel IH]; intros root Htree Hreach Huniq s Hsub; [done|].
  pose proof Htree as (r & Hr & Hkids). simpl. unfold deref. run_unfold.
  rewrite (lookup_weaken _ _ _ _ Hr Hsub). simpl.
  destruct (decide (uuid r = uuid hr)) as [Hid|Hid].
  { rewrite (Huniq root r (reachable_here _ _) Hr Hid). eauto. }
  assert (Hbelow : ∃ c, c ∈ children r ∧ reachable st c h).
  { inversion Hreach as [|? c ? r' Hr' Hc Hch]; subst; [congruence|].
    rewrite Hr in Hr'. injection Hr' as <-. eauto. }
  assert (Hloop : ∀ cs, (∃ c, c ∈ cs ∧ reachable st c h) →
                        (∀ c, c ∈ cs → c ∈ children r) →
                        ∀ s, st ⊆ store s →
                             ∃ s', searchChildren
                                     (λ child, getRevisionById fuel child (uuid hr)) cs s
                                   = Some (h, s')); [|by apply Hloop].
  clear s Hsub Hbelow.
  induction cs as [|c rest IHcs]; intros (c' & Hc' & Hreach') Hall s Hsub.
  { by apply elem_of_nil in Hc'. }
  simpl. pose proof (Hall c (list_elem_of_here _ _)) as Hc.
  pose proof (proj1 (Forall_forall _ _) Hkids c Hc) as Htc.
  destruct (getRevisionById_returns st (uuid hr) fuel c Htc s Hsub)
    as (q & s1 & Hrun & Hpre1 & _ & Hq).
  rewrite (bind_run _ _ _ _ _ Hrun).
  destruct Hq as [Hnew|(rq & Hrq & Hu & Hrq_reach)].
  - rewrite (bind_run _ _ _ _ _ (newSentinel_isEmpty _ _ _ Hnew)). simpl.
    apply IHcs.
    + apply elem_of_cons in Hc' as [->|Hin]; [|eauto].
      destruct (IH c Htc Hreach') with (s := s) as (s' & Hrun'); [|done|].
      { intros q' r' Hq'. apply Huniq. by eapply reachable_below. }
      rewrite Hrun in Hrun'. injection Hrun' as -> _.
      destruct Hnew as (Hnone & _). by rewrite (lookup_weaken _ _ _ _ Hh Hsub) in Hnone.
    + intros c0 Hc0. apply Hall. by apply list_elem_of_further.
    + etrans; [exact Hsub | apply Hpre1].
  - assert (q = h) as -> by (eapply Huniq; [by eapply reachable_below | done..]).
    assert (Hh1 : store s1 !! h = Some hr).
    { eapply lookup_weaken; [exact Hh|]. etrans; [exact Hsub | apply Hpre1]. }
    rewrite (bind_run _ _ _ _ _ (isEmpty_run _ _ _ Hh1)), Hne. simpl. eauto.
Qed.

(** So the heading revision is found whenever it is a revision of the tree,
    is not empty, and is the only revision of the tree with its id. *)
Lemma headingFound_in_tree (fuel : nat) (s : VCState) (h : Ptr) (hr : Revision) :
  treeWithin (store s) fuel (rootRevision s) →
  reachable (store s) (rootRevision s) h →
  store s !! h = Some hr → Revision_isEmpty hr = false →
  (∀ q r, reachable (store s) (rootRevision s) q → store s !! q = Some r →
          uuid r = uuid hr → q = h) →
  headingFound fuel (uuid hr) s.
Proof.
  intros Htree Hreach Hh Hne Huniq.
  destruct (getRevisionById_finds (store s) h hr fuel Hh Hne _ Htree Hreach Huniq s)
    as (s' & Hrun); [done|].
  destruct (getRevisionById_returns (store s) (uuid hr) fuel _ Htree s)
    as (q & s1 & Hrun1 & Hpre & _); [done|].
  rewrite Hrun in Hrun1. injection Hrun1 as <- <-.
  exists h, s', hr. split; [done|]. split; [|done].
  eapply lookup_weaken; [exact Hh | apply Hpre].
Qed.

(** *** The order of [StringArray::sort] *)

Lemma compareKeys_eq (a b : list N) : Juce.compareKeys a b = Eq → a = b.
Proof.
  revert b. induction a as [|x a IH]; intros [|y b]; simpl; try done.
  destruct (N.compare_spec x y); try done. intros Hrest. f_equal; auto.
Qed.

Lemma compareKeys_antisym (a b : list N) :
  Juce.compareKeys a b = CompOpp (Juce.compareKeys b a).
Proof.
  revert b. induction a as [|x a IH]; intros [|y b]; simpl; try done.
  rewrite (N.compare_antisym y x). destruct (y ?= x)%N; simpl; auto.
Qed.

Lemma compareKeys_le_trans (a b c : list N) :
  Juce.compareKeys a b ≠ Gt → Juce.compareKeys b c ≠ Gt → Juce.compareKeys a c ≠ Gt.
Proof.
  revert b c. induction a as [|x a IH]; intros [|y b] [|z c]; simpl; try done.
  destruct (N.compare_spec x y), (N.compare_spec y z), (N.compare_spec x z);
    subst; try done; try lia; eauto.
Qed.

#[local] Instance precedes_transitive : Transitive Juce.precedes.
Proof. intros a b c. apply compareKeys_le_trans. Qed.

#[local] Instance precedes_total : Total Juce.precedes.
Proof.
  intros a b. unfold Juce.precedes, Juce.compareIgnoreCase.
  rewrite (compareKeys_antisym (Juce.caseKey b)).
  destruct (Juce.compareKeys (Juce.caseKey a) (Juce.caseKey b)); simpl; auto.
Qed.

Lemma caseKey_digits_inj (a b : string) :
  digits a → digits b → Juce.caseKey a = Juce.caseKey b → a = b.
Proof.
  revert b. induction a as [|c a IH]; intros [|d b]; simpl; try done.
  intros [Hc Ha] [Hd Hb] Heq. injection Heq as Hcd Hab.
  unfold Juce.toUpperCase in Hcd.
  destruct (N.leb_spec 97 (N_of_ascii c)); [lia|].
  destruct (N.leb_spec 97 (N_of_ascii d)); [lia|]. simpl in Hcd.
  f_equal; [|by apply IH].
  rewrite <- (ascii_N_embedding c), <- (ascii_N_embedding d). by rewrite Hcd.
Qed.

Lemma precedes_antisym_digits (a b : string) :
  digits a → digits b → Juce.precedes a b → Juce.precedes b a → a = b.
Proof.
  unfold Juce.precedes, Juce.compareIgnoreCase. intros Ha Hb Hab Hba.
  apply caseKey_digits_inj; [done..|]. apply compareKeys_eq.
  rewrite compareKeys_antisym in Hba.
  by destruct (Juce.compareKeys (Juce.caseKey a) (Juce.caseKey b)).
Qed.

(** Arrays of digit strings that hold the same strings are sorted into the
    same array, whatever order they start in. *)
Lemma sortIgnoreCase_Permutation (l1 l2 : list string) :
  Forall digits l1 → l1 ≡ₚ l2 → Juce.sortIgnoreCase l1 = Juce.sortIgnoreCase l2.
Proof.
  intros Hd Hperm. unfold Juce.sortIgnoreCase.
  apply (StronglySorted_unique_strong Juce.precedes).
  - intros a b Ha Hb. apply precedes_antisym_digits.
    + apply (proj1 (Forall_forall _ _) Hd).
      by rewrite <- (merge_sort_Permutation Juce.precedes l1).
    + apply (proj1 (Forall_forall _ _) Hd).
      rewrite Hperm. by rewrite <- (merge_sort_Permutation Juce.precedes l2).
  - apply StronglySorted_merge_sort; apply _.
  - apply StronglySorted_merge_sort; apply _.
  - by rewrite !merge_sort_Permutation.
Qed.

Lemma pretty_N_char_digit (x : N) : (48 ≤ N_of_ascii (pretty_N_char x) ≤ 57)%N.
Proof.
  destruct x as [|p]; [simpl; lia|].
  do 4 (try destruct p as [p|p|]); simpl; lia.
Qed.

Lemma pretty_N_go_digits (x : N) (acc : string) :
  digits acc → digits (pretty_N_go x acc).
Proof.
  revert acc. induction (N.lt_wf_0 x) as [x _ IH]; intros acc Hacc.
  destruct (decide (0 < x)%N) as [Hpos|Hzero].
  - rewrite pretty_N_go_step by done. apply IH.
    + by apply N.div_lt.
    + split; [apply pretty_N_char_digit | done].
  - replace x with 0%N by lia. by rewrite pretty_N_go_0.
Qed.

(** [String (uint32)] gives digits only. *)
Lemma String_of_uint32_digits (n : N) : digits (Juce.String_of_uint32 n).
Proof.
  unfold Juce.String_of_uint32, pretty, pretty_N.
  destruct (decide (n = 0%N)); [simpl; lia|].
  by apply pretty_N_go_digits.
Qed.

(** *** Hashes and the order of children *)

Lemma option_Forall2_bind {A B} (R : A → A → Prop) (S : B → B → Prop)
    (f g : A → option B) (a b : option A) :
  option_Forall2 R a b →
  (∀ x y, R x y → option_Forall2 S (f x) (g y)) →
  option_Forall2 S (a ≫= f) (b ≫= g).
Proof. intros [x y Hxy|] Hfg; simpl; [by apply Hfg | constructor]. Qed.

Lemma mapM_Permutation {A B} (f : A → option B) (l1 l2 : list A) :
  l1 ≡ₚ l2 → option_Forall2 (≡ₚ) (mapM f l1) (mapM f l2).
Proof.
  induction 1 as [|x l1 l2 _ IH|x y l|l1 l2 l3 _ IH1 _ IH2]; simpl.
  - by constructor.
  - destruct (f x); simpl; [|constructor].
    destruct IH as [k1 k2 Hk|]; simpl; constructor. by constructor.
  - destruct (f x), (f y); simpl; try constructor;
      destruct (mapM f l); simpl; constructor. apply perm_swap.
  - destruct IH1 as [k1 k2 H12|]; inversion IH2; subst; constructor.
    by etrans.
Qed.

Lemma mapM_pointwise {A B} (R : relation B) (f g : A → option B) (l : list A) :
  (∀ x, option_Forall2 R (f x) (g x)) →
  option_Forall2 (Forall2 R) (mapM f l) (mapM g l).
Proof.
  intros Hfg. induction l as [|x l IH]; simpl; [by repeat constructor|].
  destruct (Hfg x) as [y1 y2 Hy|]; simpl; [|constructor].
  destruct IH as [k1 k2 Hk|]; simpl; constructor. by constructor.
Qed.

Lemma mapM_permRel {A B} (R : relation B) (f g : A → option B) (l1 l2 : list A) :
  l1 ≡ₚ l2 →
  (∀ x, option_Forall2 R (f x) (g x)) →
  option_Forall2 (permRel R) (mapM f l1) (mapM g l2).
Proof.
  intros Hperm Hfg.
  pose proof (mapM_Permutation f _ _ Hperm) as H1.
  pose proof (mapM_pointwise R f g l2 Hfg) as H2.
  destruct (mapM f l1) as [k1|], (mapM f l2) as [k2|], (mapM g l2) as [k3|];
    inversion H1; inversion H2; subst; constructor.
  by exists k2.
Qed.

Lemma concat_permRel {A} (xs ys : list (list A)) :
  permRel (≡ₚ) xs ys → concat xs ≡ₚ concat ys.
Proof.
  intros (zs & Hperm & Hall). rewrite Hperm. clear Hperm.
  induction Hall as [|z y zs ys Hzy _ IH]; simpl; [done|]. by rewrite Hzy, IH.
Qed.

(** The hash of a revision and, up to their order, the hashes below it do
    not depend on the order of children anywhere in its subtree. *)
Lemma Revision_hashes_child_order (st st' : gmap Ptr Revision) (fuel : nat) (p : Ptr) :
  childOrderOnly st st' →
  option_Forall2 (λ a b : N * list N, a.1 = b.1 ∧ a.2 ≡ₚ b.2)
    (Revision_hashes fuel st p) (Revision_hashes fuel st' p).
Proof.
  intros Hst. revert p. induction fuel as [|fuel IH]; intros p; simpl.
  { constructor. }
  eapply option_Forall2_bind; [apply Hst|].
  intros r r' (_ & _ & Hitems & Hkids).
  eapply option_Forall2_bind; [by apply mapM_permRel, IH|].
  intros subs subs' (mid & Hperm & Hall). constructor. simpl.
  assert (Hbelow : subs ≫= (λ hd : N * list N, hd.1 :: hd.2)
                   ≡ₚ subs' ≫= (λ hd : N * list N, hd.1 :: hd.2)).
  { rewrite Hperm. clear Hperm.
    induction Hall as [|[h d] [h' d'] zs ys [Hh Hd] _ IHall]; simpl in *; [done|].
    change (h :: d ++ zs ≫= (λ hd : N * list N, hd.1 :: hd.2)
            ≡ₚ h' :: d' ++ ys ≫= (λ hd : N * list N, hd.1 :: hd.2)).
    by rewrite Hh, Hd, IHall. }
  split; [|done]. rewrite Hitems. f_equal.
  apply (StronglySorted_unique N.le).
  - apply StronglySorted_merge_sort; apply _.
  - apply StronglySorted_merge_sort; apply _.
  - by rewrite !merge_sort_Permutation.
Qed.

Lemma recursiveGetHashes_child_order (st st' : gmap Ptr Revision) (fuel : nat) (p : Ptr) :
  childOrderOnly st st' →
  option_Forall2 (≡ₚ) (recursiveGetHashes fuel st p) (recursiveGetHashes fuel st' p).
Proof.
  intros Hst. revert p. induction fuel as [|fuel IH]; intros p.
  { constructor. }
  cbn [recursiveGetHashes].
  eapply option_Forall2_bind; [apply Hst|].
  intros r r' (_ & _ & _ & Hkids).
  eapply option_Forall2_bind; [by apply mapM_permRel, IH|].
  intros subs subs' Hsubs.
  eapply option_Forall2_bind.
  { unfold Revision_calculateHash.
    destruct (Revision_hashes_child_order st st' (S fuel) p Hst) as [a b [Hh _]|];
      simpl; constructor. exact Hh. }
  intros h h' ->. constructor. by rewrite (concat_permRel _ _ Hsubs).
Qed.

Lemma recursiveGetHashes_digits (st : gmap Ptr Revision) (fuel : nat) (p : Ptr) (ids : list string) :
  recursiveGetHashes fuel st p = Some ids → Forall digits ids.
Proof.
  revert p ids. induction fuel as [|fuel IH]; intros p ids; [done|].
  cbn [recursiveGetHashes]. intros Hrun.
  destruct (st !! p) as [r|]; [|done]. simpl in Hrun.
  destruct (mapM _ (children r)) as [subs|] eqn:Esubs; [|done]. simpl in Hrun.
  destruct (Revision_calculateHash _ _ _) as [h|]; [|done]. simpl in Hrun.
  injection Hrun as <-. apply Forall_app. split.
  - apply mapM_Some_1 in Esubs. apply Forall_concat.
    induction Esubs as [|c sub cs subs' Hc _ IHs]; constructor; eauto.
  - repeat constructor. apply String_of_uint32_digits.
Qed.

Lemma Revision_hashes_total (st : gmap Ptr Revision) (fuel : nat) (p : Ptr) :
  treeWithin st fuel p → is_Some (Revision_hashes fuel st p).
Proof.
  revert p. induction fuel as [|fuel IH]; intros p; [done|].
  intros (r & Hr & Hkids). simpl. rewrite Hr. simpl.
  destruct (mapM_is_Some_2 (Revision_hashes fuel st) (children r)) as [subs ->].
  { eapply Forall_impl; [exact Hkids|]. intros c Hc. by apply IH. }
  by eexists.
Qed.

Lemma recursiveGetHashes_total (st : gmap Ptr Revision) (fuel : nat) (p : Ptr) :
  treeWithin st fuel p → is_Some (recursiveGetHashes fuel st p).
Proof.
  revert p. induction fuel as [|fuel IH]; intros p; [done|].
  intros Htree. pose proof Htree as (r & Hr & Hkids).
  cbn [recursiveGetHashes]. rewrite Hr. simpl.
  destruct (mapM_is_Some_2 (recursiveGetHashes fuel st) (children r)) as [subs ->].
  { eapply Forall_impl; [exact Hkids|]. intros c Hc. by apply IH. }
  simpl. unfold Revision_calculateHash.
  destruct (Revision_hashes_total st (S fuel) p Htree) as [hd ->]. by eexists.
Qed.

(** C3: two histories that differ only in the order children were attached
    in have the same whole-tree hash, and a history whose objects form a
    tree within the fuel has one. *)
Theorem calculateHash_child_order (fuel : nat) (s s' : VCState) :
  childOrderOnly (store s) (store s') →
  rootRevision s' = rootRevision s →
  calculateHash fuel s' = calculateHash fuel s ∧
  (treeWithin (store s) fuel (rootRevision s) → is_Some (calculateHash fuel s)).
Proof.
  intros Hst Hroot. unfold calculateHash. rewrite Hroot. split.
  - pose proof (recursiveGetHashes_child_order _ _ fuel (rootRevision s) Hst) as Hrel.
    destruct (recursiveGetHashes fuel (store s) (rootRevision s)) as [ids|] eqn:E;
      inversion Hrel as [? ids' Hperm|]; subst; [|done].
    simpl. rewrite (sortIgnoreCase_Permutation ids ids'); [done| |done].
    by eapply recursiveGetHashes_digits.
  - intros Htree. by destruct (recursiveGetHashes_total _ _ _ Htree) as [ids ->].
Qed.

(** Rearranging the children of one revision [R] is a case of it. *)
Lemma childOrderOnly_permute (st : gmap Ptr Revision) (R : Ptr) (r : Revision) (cs : list Ptr) :
  st !! R = Some r → children r ≡ₚ cs →
  childOrderOnly st (<[R := mkRevision (uuid r) (message r) (items r) cs]> st).
Proof.
  intros HR Hperm p. destruct (decide (p = R)) as [->|Hne].
  - rewrite lookup_insert_eq, HR. by constructor.
  - rewrite lookup_insert_ne by done. destruct (st !! p); by constructor.
Qed.

(** *** Saving and loading *)

(** Induction on a node with the property known of the nodes nested in
    it. *)
Lemma RevisionNode_nested_ind (P : RevisionNode → Prop) :
  (∀ id msg its kids, Forall P kids → P (mkRevisionNode id msg its kids)) →
  ∀ n, P n.
Proof.
  intros Hnode. fix IH 1. intros [id msg its kids]. apply Hnode.
  induction kids as [|k kids IHkids]; constructor; [apply IH | exact IHkids].
Qed.

Lemma represents_inv (st0 st : gmap Ptr Revision) (p : Ptr) id msg its kids :
  represents st0 st p (mkRevisionNode id msg its kids) →
  ∃ r, st0 !! p = None ∧ st !! p = Some r ∧
       uuid r = id ∧ message r = msg ∧ items r = its ∧
       Forall2 (represents st0 st) (children r) kids.
Proof. inversion 1; subst. by eexists. Qed.

Lemma represents_transport (st0 st st0' st' : gmap Ptr Revision) (n : RevisionNode) :
  ∀ p, represents st0 st p n →
       (∀ q r, st0 !! q = None → st !! q = Some r → st0' !! q = None ∧ st' !! q = Some r) →
       represents st0' st' p n.
Proof.
  induction n as [id msg its kids IH] using RevisionNode_nested_ind.
  intros p Hrep Hmove.
  apply represents_inv in Hrep as (r & Hnew & Hr & <- & <- & <- & Hkids).
  destruct (Hmove p r Hnew Hr) as [Hnew' Hr'].
  constructor; [done..|].
  clear Hr Hr'. induction Hkids as [|c k cs ks Hc _ IHk]; constructor.
  - apply Forall_cons in IH as [IHc _]. by apply IHc.
  - apply IHk. by apply Forall_cons in IH as [_ ?].
Qed.

Lemma represents_weaken (st0 st st' : gmap Ptr Revision) (p : Ptr) (n : RevisionNode) :
  represents st0 st p n → st ⊆ st' → represents st0 st' p n.
Proof.
  intros Hrep Hsub. apply (represents_transport st0 st); [done|].
  intros q r Hq Hr. split; [done|]. by eapply lookup_weaken.
Qed.

Lemma Revision_serialize_represents (st : gmap Ptr Revision) (fuel : nat) :
  ∀ p n, Revision_serialize fuel st p = Some n → represents ∅ st p n.
Proof.
  induction fuel as [|fuel IH]; intros p n; [done|]. simpl. intros Hrun.
  destruct (st !! p) as [r|] eqn:Hr; [|done]. simpl in Hrun.
  destruct (mapM _ (children r)) as [kids|] eqn:Hkids; [|done].
  injection Hrun as <-. constructor; [apply lookup_empty | done |].
  apply mapM_Some_1 in Hkids.
  induction Hkids; constructor; eauto.
Qed.

Lemma Revision_serialize_treeWithin (st : gmap Ptr Revision) (fuel : nat) :
  ∀ p n, Revision_serialize fuel st p = Some n → treeWithin st fuel p.
Proof.
  induction fuel as [|fuel IH]; intros p n; [done|]. simpl. intros Hrun.
  destruct (st !! p) as [r|] eqn:Hr; [|done]. simpl in Hrun.
  destruct (mapM _ (children r)) as [kids|] eqn:Hkids; [|done].
  exists r. split; [done|]. apply mapM_Some_1 in Hkids.
  clear Hrun. induction Hkids as [|c k cs ks Hc _ IHk];
    [constructor | constructor; [by eapply IH | done]].
Qed.

Lemma forEach_cons {A B} (f : A → M B) (x : A) (rest : list A) :
  forEach f (x :: rest) = (y ← f x; ys ← forEach f rest; mret (y :: ys)).
Proof. reflexivity. Qed.

Lemma forEach_load_run (kids : list RevisionNode) :
  Forall (λ k, ∀ s, ∃ p s', Revision_load k s = Some (p, s') ∧
                            represents (store s) (store s') p k ∧
                            head s' = head s ∧ preserves s s') kids →
  ∀ s, ∃ cs s', forEach Revision_load kids s = Some (cs, s') ∧
                Forall2 (represents (store s) (store s')) cs kids ∧
                head s' = head s ∧ preserves s s'.
Proof.
  induction kids as [|k kids IH]; intros Hload s.
  { exists [], s. repeat split; auto using preserves_refl. }
  apply Forall_cons in Hload as [Hk Hkids].
  destruct (Hk s) as (c & s1 & Hrun1 & Hrep1 & Hh1 & Hpre1).
  destruct (IH Hkids s1) as (cs & s2 & Hrun2 & Hrep2 & Hh2 & Hpre2).
  exists (c :: cs), s2.
  rewrite forEach_cons, (bind_run _ _ _ _ _ Hrun1), (bind_run _ _ _ _ _ Hrun2).
  split; [done|]. split; [|split; [congruence | by eapply preserves_trans]].
  constructor.
  - eapply represents_weaken; [exact Hrep1 | apply Hpre2].
  - eapply Forall2_impl; [exact Hrep2|]. intros q k' Hq.
    apply (represents_transport (store s1) (store s2)); [done|].
    intros q' r' Hnew Hr'. split; [|done].
    eapply lookup_weaken_None; [exact Hnew | apply Hpre1].
Qed.

(** A loaded revision is laid out as its node says, out of new objects. *)
Lemma Revision_load_run (n : RevisionNode) :
  ∀ s, ∃ p s', Revision_load n s = Some (p, s') ∧
               represents (store s) (store s') p n ∧
               head s' = head s ∧ preserves s s'.
Proof.
  induction n as [id msg its kids IH] using RevisionNode_nested_ind. intros s.
  destruct (forEach_load_run kids IH s) as (cs & s2 & Hrun & Hrep & Hh & Hpre).
  cbn [Revision_load]. fold (forEach Revision_load kids).
  rewrite (bind_run _ _ _ _ _ Hrun). run_unfold. simpl.
  eexists _, _. split; [reflexivity|]. simpl.
  pose proof (fresh_unused (store s2)) as Hfresh.
  split; [|split; [done|]].
  - apply (represents_node _ _ _ (mkRevision id msg its cs) kids).
    + eapply lookup_weaken_None; [exact Hfresh | apply Hpre].
    + apply lookup_insert_eq.
    + eapply Forall2_impl; [exact Hrep|]. intros q k Hq.
      eapply represents_weaken; [exact Hq | apply insert_fresh_subseteq].
  - destruct Hpre as (Hsub & ? & ? & ? & ? & ? & ?). repeat split; try done.
    etrans; [exact Hsub | apply insert_fresh_subseteq].
Qed.

Lemma forEach_Revision_load_run (kids : list RevisionNode) (s : VCState) :
  ∃ cs s', forEach Revision_load kids s = Some (cs, s') ∧
           Forall2 (represents (store s) (store s')) cs kids ∧
           head s' = head s ∧ preserves s s'.
Proof.
  apply forEach_load_run, Forall_forall. intros k _. apply Revision_load_run.
Qed.

(** The root takes the layout of the node it deserializes; the objects that
    existed besides it stay as they are. *)
Lemma Revision_deserialize_run (root : Ptr) (n : RevisionNode) (s : VCState) :
  is_Some (store s !! root) →
  ∃ s', Revision_deserialize root n s = Some (tt, s') ∧
        represents ∅ (store s') root n ∧
        (∀ q, q ≠ root → store s !! q = store s' !! q ∨ store s !! q = None) ∧
        is_Some (store s' !! root) ∧
        pack s' = pack s ∧ head s' = head s ∧ stashes s' = stashes s ∧
        rootRevision s' = rootRevision s ∧ live s' = live s ∧ changes s' = changes s.
Proof.
  intros [r0 Hroot]. destruct n as [id msg its kids].
  destruct (forEach_Revision_load_run kids s)
    as (cs & s2 & Hrun & Hrep & Hh & Hsub & ? & ? & ? & ? & ? & ?).
  unfold Revision_deserialize. rewrite (bind_run _ _ _ _ _ Hrun).
  unfold Revision_update. run_unfold.
  rewrite (lookup_weaken _ _ _ _ Hroot Hsub). simpl.
  eexists. split; [reflexivity|]. simpl. rewrite lookup_insert_eq.
  split; [|split; [|by repeat split; eauto]].
  - apply (represents_node _ _ _ (mkRevision id msg its cs) kids).
    + apply lookup_empty.
    + apply lookup_insert_eq.
    + eapply Forall2_impl; [exact Hrep|]. intros q k Hq.
      apply (represents_transport (store s) (store s2)); [done|].
      intros q' r' Hnew Hr'. split; [apply lookup_empty|].
      rewrite lookup_insert_ne; [done|]. intros <-. congruence.
  - intros q Hq. rewrite lookup_insert_ne by done.
    destruct (store s !! q) as [x|] eqn:Hx; [left | by right].
    symmetry. by eapply lookup_weaken.
Qed.

Lemma Forall2_through {A B C} (R1 : A → C → Prop) (R2 : B → C → Prop) (Q : A → B → Prop)
    (l1 : list A) (l2 : list B) (ks : list C) :
  Forall2 R1 l1 ks → Forall2 R2 l2 ks →
  (∀ x y k, R1 x k → R2 y k → Q x y) → Forall2 Q l1 l2.
Proof.
  intros H1. revert l2. induction H1; intros l2 H2 HQ; inversion H2; subst;
    constructor; eauto.
Qed.

(** Objects laid out alike have the same hashes. *)
Lemma Revision_hashes_represents (st1 st2 : gmap Ptr Revision) (fuel : nat) :
  ∀ n p1 p2, represents ∅ st1 p1 n → represents ∅ st2 p2 n →
             Revision_hashes fuel st1 p1 = Revision_hashes fuel st2 p2.
Proof.
  induction fuel as [|fuel IH]; intros [id msg its kids] p1 p2 H1 H2; [done|].
  apply represents_inv in H1 as (r1 & _ & Hr1 & _ & _ & Hi1 & Hk1).
  apply represents_inv in H2 as (r2 & _ & Hr2 & _ & _ & Hi2 & Hk2).
  simpl. rewrite Hr1, Hr2. simpl. rewrite Hi1, Hi2.
  rewrite (Forall2_mapM_ext (Revision_hashes fuel st1) (Revision_hashes fuel st2)
             (children r1) (children r2)); [done|].
  eapply Forall2_through; [exact Hk1 | exact Hk2 | eauto].
Qed.

Lemma recursiveGetHashes_represents (st1 st2 : gmap Ptr Revision) (fuel : nat) :
  ∀ n p1 p2, represents ∅ st1 p1 n → represents ∅ st2 p2 n →
             recursiveGetHashes fuel st1 p1 = recursiveGetHashes fuel st2 p2.
Proof.
  induction fuel as [|fuel IH]; intros n p1 p2 H1 H2; [done|].
  cbn [recursiveGetHashes]. unfold Revision_calculateHash.
  rewrite (Revision_hashes_represents st1 st2 (S fuel) n p1 p2 H1 H2).
  destruct n as [id msg its kids].
  apply represents_inv in H1 as (r1 & _ & Hr1 & _ & _ & _ & Hk1).
  apply represents_inv in H2 as (r2 & _ & Hr2 & _ & _ & _ & Hk2).
  rewrite Hr1, Hr2. simpl.
  rewrite (Forall2_mapM_ext (recursiveGetHashes fuel st1) (recursiveGetHashes fuel st2)
             (children r1) (children r2)); [done|].
  eapply Forall2_through; [exact Hk1 | exact Hk2 | eauto].
Qed.

(** What the design document leaves open of [isEmpty] is closed here by
    the least it can be: the answer depends on what the revision holds, not
    on the addresses of its children. *)
Hypothesis isEmpty_shape : ∀ r r',
  uuid r = uuid r' → message r = message r' → items r = items r' →
  length (children r) = length (children r') →
  Revision_isEmpty r = Revision_isEmpty r'.

Lemma searchOutcome_after (id : string) (s s1 : VCState) (res : option (Ptr * VCState))
    (empty : bool) :
  preserves s s1 → head s1 = head s →
  searchOutcome id s1 res empty → searchOutcome id s res empty.
Proof.
  intros Hpre Hh. destruct res as [[q s']|]; [|done].
  intros (Hpre' & Hh' & Hr). split; [by eapply preserves_trans|].
  split; [congruence | done].
Qed.

Lemma searchChildren_sameSearch (st1 st2 : gmap Ptr Revision) (id : string)
    (search1 search2 : Ptr → M Ptr) (cs1 cs2 : list Ptr) :
  Forall2 (λ c1 c2, ∀ s1 s2, st1 ⊆ store s1 → st2 ⊆ store s2 →
                             sameSearch id s1 s2 (search1 c1 s1) (search2 c2 s2)) cs1 cs2 →
  ∀ s1 s2, st1 ⊆ store s1 → st2 ⊆ store s2 →
           sameSearch id s1 s2 (searchChildren search1 cs1 s1) (searchChildren search2 cs2 s2).
Proof.
  induction 1 as [|c1 c2 cs1 cs2 Hc _ IH]; intros s1 s2 Hs1 Hs2; simpl.
  { right. exists true.
    destruct (Revision_new_sentinel s1) as (p1 & t1 & -> & _ & [u1 Hu1] & Hh1 & Hp1).
    destruct (Revision_new_sentinel s2) as (p2 & t2 & -> & _ & [u2 Hu2] & Hh2 & Hp2).
    split; (split; [done|]; split; [done|]); eexists; (split; [eassumption|]);
      by rewrite isEmpty_sentinel. }
  destruct (Hc s1 s2 Hs1 Hs2) as [[E1 E2]|(empty & Ho1 & Ho2)].
  { left. unfold mbind, M_bind. by rewrite E1, E2. }
  destruct (search1 c1 s1) as [[q1 t1]|] eqn:E1; [|done].
  destruct (search2 c2 s2) as [[q2 t2]|] eqn:E2; [|done].
  rewrite (bind_run _ _ _ _ _ E1), (bind_run _ _ _ _ _ E2).
  pose proof Ho1 as (Hp1 & Hh1 & r1 & Hr1 & He1 & Hid1).
  pose proof Ho2 as (Hp2 & Hh2 & r2 & Hr2 & He2 & Hid2).
  rewrite (bind_run _ _ _ _ _ (isEmpty_run _ _ _ Hr1)), He1.
  rewrite (bind_run _ _ _ _ _ (isEmpty_run _ _ _ Hr2)), He2.
  destruct empty; simpl.
  - destruct (IH t1 t2) as [[F1 F2]|(empty' & Ho1' & Ho2')].
    + etrans; [exact Hs1 | apply Hp1].
    + etrans; [exact Hs2 | apply Hp2].
    + left. by rewrite F1, F2.
    + right. exists empty'. split; by eapply searchOutcome_after.
  - right. exists false. unfold mret, M_ret. by split.
Qed.

(** The search fares alike on objects laid out alike. *)
Lemma getRevisionById_sameSearch (st1 st2 : gmap Ptr Revision) (id : string) (fuel : nat) :
  ∀ n p1 p2, represents ∅ st1 p1 n → represents ∅ st2 p2 n →
  ∀ s1 s2, st1 ⊆ store s1 → st2 ⊆ store s2 →
           sameSearch id s1 s2 (getRevisionById fuel p1 id s1) (getRevisionById fuel p2 id s2).
Proof.
  induction fuel as [|fuel IH]; intros [nid msg its kids] p1 p2 H1 H2 s1 s2 Hs1 Hs2.
  { by left. }
  apply represents_inv in H1 as (r1 & _ & Hr1 & Hu1 & Hm1 & Hi1 & Hk1).
  apply represents_inv in H2 as (r2 & _ & Hr2 & Hu2 & Hm2 & Hi2 & Hk2).
  simpl. unfold deref. run_unfold.
  rewrite (lookup_weaken _ _ _ _ Hr1 Hs1), (lookup_weaken _ _ _ _ Hr2 Hs2). simpl.
  rewrite Hu1, Hu2. destruct (decide (nid = id)) as [Hid|Hid].
  - right. exists (Revision_isEmpty r1).
    split; (split; [apply preserves_refl|]; split; [done|]).
    + exists r1. split; [by eapply lookup_weaken|]. split; [done|]. congruence.
    + exists r2. split; [by eapply lookup_weaken|]. split; [|congruence].
      apply isEmpty_shape; try congruence.
      by rewrite (Forall2_length _ _ _ Hk1), (Forall2_length _ _ _ Hk2).
  - apply (searchChildren_sameSearch st1 st2); [|done..].
    eapply Forall2_through; [exact Hk1 | exact Hk2 |].
    intros c1 c2 k Hc1 Hc2. by apply (IH k).
Qed.

Lemma Stashes_deserialize_run (node : list RevisionNode * option RevisionNode) (s : VCState) :
  ∃ s', Stashes_deserialize node s = Some (tt, s') ∧
        store s ⊆ store s' ∧ pack s' = pack s ∧ head s' = head s ∧
        rootRevision s' = rootRevision s ∧ live s' = live s ∧ changes s' = changes s.
Proof.
  destruct node as [named quick]. unfold Stashes_deserialize. cbn [fst snd].
  destruct (forEach_Revision_load_run named s)
    as (cs & s1 & Hrun1 & _ & Hh1 & Hsub1 & ? & ? & ? & ? & ? & ?).
  destruct quick as [k|].
  - destruct (Revision_load_run k s1)
      as (q & s2 & Hrun2 & _ & Hh2 & Hsub2 & ? & ? & ? & ? & ? & ?).
    run_unfold. rewrite Hrun1, Hrun2.
    eexists. split; [reflexivity|]. simpl.
    repeat split; try congruence. by etrans.
  - run_unfold. rewrite Hrun1. eexists. split; [reflexivity|]. simpl.
    repeat split; try congruence. done.
Qed.

Lemma get_run (s : VCState) : get s = Some (s, s).
Proof. reflexivity. Qed.

Lemma modify_run (f : VCState → VCState) (s : VCState) : modify f s = Some (tt, f s).
Proof. reflexivity. Qed.

Lemma reset_run (s : VCState) :
  is_Some (store s !! rootRevision s) →
  ∃ s', reset s = Some (tt, s') ∧ is_Some (store s' !! rootRevision s) ∧
        rootRevision s' = rootRevision s ∧ live s' = live s ∧ changes s' = changes s.
Proof.
  intros [r Hr]. unfold reset, Revision_reset, Revision_update. run_unfold.
  rewrite Hr. simpl. eexists. split; [reflexivity|]. simpl.
  rewrite lookup_insert_eq. eauto.
Qed.

(** [serialize] returns: with the head on an existing revision, and fuel for
    the height of the history and of every stash, it writes a tree whose
    revision node is the one of the root. *)
Lemma Revision_serialize_total (st : gmap Ptr Revision) (fuel : nat) :
  ∀ p, treeWithin st fuel p → is_Some (Revision_serialize fuel st p).
Proof.
  induction fuel as [|fuel IH]; intros p Htree; [done|].
  destruct Htree as (r & Hr & Hkids). simpl. rewrite Hr. simpl.
  destruct (mapM_is_Some_2 (Revision_serialize fuel st) (children r)) as [kids ->].
  { eapply Forall_impl; [exact Hkids|]. intros c Hc. by apply IH. }
  by eexists.
Qed.

Lemma serialize_returns (fuel : nat) (s : VCState) (heading : Ptr) (hr : Revision) :
  headingRevision (head s) = Some heading →
  store s !! heading = Some hr →
  treeWithin (store s) fuel (rootRevision s) →
  Forall (treeWithin (store s) fuel) (userStashes (stashes s)) →
  (∀ q, quickStash (stashes s) = Some q → treeWithin (store s) fuel q) →
  ∃ tree, serialize fuel s = Some tree ∧ headRevisionId tree = uuid hr.
Proof.
  intros Hh Hhr Htree Hnamed Hquick. unfold serialize, Stashes_serialize.
  rewrite Hh. simpl. rewrite Hhr. simpl.
  destruct (Revision_serialize_total _ _ _ Htree) as [rootNode ->]. simpl.
  destruct (mapM_is_Some_2 (Revision_serialize fuel (store s)) (userStashes (stashes s)))
    as [named ->].
  { eapply Forall_impl; [exact Hnamed|]. intros c Hc. by apply Revision_serialize_total. }
  simpl. destruct (quickStash (stashes s)) as [q|] eqn:Hq.
  - destruct (Revision_serialize_total _ _ _ (Hquick q eq_refl)) as [quickNode ->].
    simpl. by eexists.
  - simpl. by eexists.
Qed.

Lemma deserialize_serialized_found (fuel : nat) (s s0 : VCState) (tree : VersionControlNode) :
  serialize fuel s = Some tree →
  headingFound fuel (headRevisionId tree) s →
  is_Some (store s0 !! rootRevision s0) →
  ∃ s' q r,
    deserialize fuel (VersionControlTree tree) s0 = Some (tt, s') ∧
    calculateHash fuel s' = calculateHash fuel s ∧
    is_Some (calculateHash fuel s) ∧
    headingRevision (head s') = Some q ∧ store s' !! q = Some r ∧
    Some (uuid r) = (heading ← headingRevision (head s); uuid <$> store s !! heading) ∧
    indexValid (head s') = false.
Proof.
  intros Hser (q1 & s1 & r1 & Hfind & Hr1 & Hne1) Hroot0.
  unfold serialize in Hser.
  destruct (headingRevision (head s)) as [heading|] eqn:Hheading; [|done].
  simpl in Hser. destruct (store s !! heading) as [hr|] eqn:Hhr; [|done].
  simpl in Hser.
  destruct (Revision_serialize fuel (store s) (rootRevision s)) as [rootNode|] eqn:Hnode;
    [|done].
  simpl in Hser. destruct (Stashes_serialize _ _ _) as [stashNode|]; [|done].
  injection Hser as <-. simpl in Hfind.
  pose proof (Revision_serialize_represents _ _ _ _ Hnode) as Hrep.
  pose proof (Revision_serialize_treeWithin _ _ _ _ Hnode) as Htree.
  destruct (reset_run s0 Hroot0) as (sa & Hreset & Hroota & Hra & _).
  destruct (Revision_deserialize_run (rootRevision s0) rootNode sa Hroota)
    as (sb & Hdes & Hrepb & _ & _ & _ & _ & _ & Hrb & _).
  destruct (Stashes_deserialize_run stashNode sb)
    as (sc & Hst & Hsubc & _ & _ & Hrc & _).
  set (sd := set_head (Head_deserialize (head s))
               (set_pack (λ _, Pack_deserialize (Pack_serialize (pack s))) sc)).
  destruct (getRevisionById_sameSearch (store s) (store sd) (uuid hr) fuel rootNode
              (rootRevision s) (rootRevision s0) Hrep
              (represents_weaken _ _ _ _ _ Hrepb Hsubc) s sd)
    as [[E1 _]|(empty & Ho1 & Ho2)]; [done | done | congruence |].
  rewrite Hfind in Ho1. destruct Ho1 as (_ & _ & r1' & Hr1' & He1 & _).
  assert (empty = false) as -> by congruence.
  destruct (getRevisionById fuel (rootRevision s0) (uuid hr) sd) as [[q2 se]|] eqn:Hfind2;
    [|done].
  destruct Ho2 as (Hpre2 & Hh2 & r2 & Hr2 & He2 & Hid2).
  exists (set_head (Head_pointTo q2) se), q2, r2.
  split; [|split; [|split; [|split; [done|split; [done|split; [|done]]]]]].
  - unfold deserialize. rewrite (bind_run _ _ _ _ _ Hreset). simpl.
    rewrite (bind_run _ _ _ _ _ (get_run sa)), Hra.
    rewrite (bind_run _ _ _ _ _ Hdes), (bind_run _ _ _ _ _ Hst).
    rewrite !(bind_run _ _ _ _ _ (modify_run _ _)). fold sd.
    rewrite (bind_run _ _ _ _ _ Hfind2).
    rewrite (bind_run _ _ _ _ _ (isEmpty_run _ _ _ Hr2)), He2. reflexivity.
  - unfold calculateHash. simpl.
    destruct Hpre2 as (Hsub2 & _ & _ & _ & Hroot2 & _). rewrite Hroot2. simpl.
    rewrite Hrc, Hrb, Hra.
    by rewrite (recursiveGetHashes_represents (store se) (store s) fuel rootNode
                  (rootRevision s0) (rootRevision s)
                  (represents_weaken _ _ _ _ _
                     (represents_weaken _ _ _ _ _ Hrepb Hsubc) Hsub2) Hrep).
  - unfold calculateHash.
    by destruct (recursiveGetHashes_total _ _ _ Htree) as [ids ->].
  - simpl. by rewrite Hhr, Hid2.
Qed.

(** C7, as the code has it: a state whose head is on an existing revision,
    and whose history and stashes are trees, is written by [serialize]; when
    the lookup of the heading revision's id finds a revision that is not
    empty, what [serialize] wrote is loaded by [deserialize], into any
    [VersionControl] object, as a history with the same hash and a head
    pointed, with an invalid index, to a revision that carries the id of the
    heading revision. *)
Theorem serialize_deserialize_found (fuel : nat) (s s0 : VCState) (heading : Ptr)
    (hr : Revision) :
  headingRevision (head s) = Some heading →
  store s !! heading = Some hr →
  treeWithin (store s) fuel (rootRevision s) →
  Forall (treeWithin (store s) fuel) (userStashes (stashes s)) →
  (∀ q, quickStash (stashes s) = Some q → treeWithin (store s) fuel q) →
  headingFound fuel (uuid hr) s →
  is_Some (store s0 !! rootRevision s0) →
  ∃ tree s' q r,
    serialize fuel s = Some tree ∧
    deserialize fuel (VersionControlTree tree) s0 = Some (tt, s') ∧
    calculateHash fuel s' = calculateHash fuel s ∧
    is_Some (calculateHash fuel s) ∧
    headingRevision (head s') = Some q ∧ store s' !! q = Some r ∧
    uuid r = uuid hr ∧
    indexValid (head s') = false.
Proof.
  intros Hh Hhr Htree Hnamed Hquick Hfound Hroot0.
  destruct (serialize_returns fuel s heading hr Hh Hhr Htree Hnamed Hquick)
    as (tree & Hser & Hid).
  rewrite <- Hid in Hfound.
  destruct (deserialize_serialized_found fuel s s0 tree Hser Hfound Hroot0)
    as (s' & q & r & Hrun & Hhash & Hsome & Hq & Hr & Hu & Hvalid).
  exists tree, s', q, r. do 6 (split; [done|]). split; [|done].
  rewrite Hh in Hu. simpl in Hu. rewrite Hhr in Hu. simpl in Hu. by injection Hu.
Qed.


(** ** Further properties of the orchestrator *)

(** *** The search by id *)

Lemma searchChildren_outcome (st : gmap Ptr Revision) (id : string) (root : Ptr)
    (search : Ptr → M Ptr) (cs : list Ptr) :
  (∀ c, c ∈ cs → ∀ s, st ⊆ store s →
        ∃ q s', search c s = Some (q, s') ∧ preserves s s' ∧ head s' = head s ∧
                ((∃ r, st !! q = Some r ∧ uuid r = id ∧ reachable st root q) ∨
                 newSentinel s q s')) →
  ∀ s, st ⊆ store s →
       ∃ q s', searchChildren search cs s = Some (q, s') ∧ preserves s s' ∧ head s' = head s ∧
               ((∃ r, st !! q = Some r ∧ uuid r = id ∧ Revision_isEmpty r = false ∧
                      reachable st root q) ∨
                newSentinel s q s').
Proof.
  induction cs as [|c rest IH]; intros Hsearch s Hsub; simpl.
  { destruct (Revision_new_sentinel s) as (q & s' & Hrun & Hnew).
    exists q, s'. split; [done|]. split; [apply Hnew|]. split; [apply Hnew | by right]. }
  destruct (Hsearch c (list_elem_of_here _ _) s Hsub) as (q1 & s1 & Hrun & Hpre1 & Hh1 & Hq1).
  rewrite (bind_run _ _ _ _ _ Hrun).
  assert (Hnext : ∃ q s', searchChildren search rest s1 = Some (q, s') ∧
                          preserves s s' ∧ head s' = head s ∧
                          ((∃ r, st !! q = Some r ∧ uuid r = id ∧ Revision_isEmpty r = false ∧
                                 reachable st root q) ∨
                           newSentinel s q s')).
  { destruct (IH (λ c' Hc', Hsearch c' (list_elem_of_further _ _ _ Hc')) s1)
      as (q & s' & Hrun' & Hpre' & Hh' & Hq'); [etrans; [exact Hsub | apply Hpre1]|].
    exists q, s'. split; [done|]. split; [by eapply preserves_trans|].
    split; [congruence|]. destruct Hq' as [Hfound|Hnew]; [by left | right].
    by eapply newSentinel_after. }
  destruct Hq1 as [(r & Hr & Hu & Hreach)|Hnew].
  - assert (Hr1 : store s1 !! q1 = Some r).
    { eapply lookup_weaken; [exact Hr|]. etrans; [exact Hsub | apply Hpre1]. }
    rewrite (bind_run _ _ _ _ _ (isEmpty_run _ _ _ Hr1)).
    destruct (Revision_isEmpty r) eqn:He; simpl; [done|].
    exists q1, s1. split; [done|]. split; [done|]. split; [done|]. left. eauto 6.
  - by rewrite (bind_run _ _ _ _ _ (newSentinel_isEmpty _ _ _ Hnew)).
Qed.

Lemma getRevisionById_run (fuel : nat) (root : Ptr) (id : string) (s : VCState) :
  treeWithin (store s) fuel root →
  ∃ q s', getRevisionById fuel root id s = Some (q, s') ∧
          preserves s s' ∧ head s' = head s ∧
          ((q = root ∧ s' = s ∧ ∃ r, store s !! root = Some r ∧ uuid r = id) ∨
           (∃ r, store s !! q = Some r ∧ uuid r = id ∧ Revision_isEmpty r = false ∧
                 reachable (store s) root q) ∨
           newSentinel s q s').
Proof.
  assert (Hgen : ∀ st fuel root, treeWithin st fuel root → ∀ s, st ⊆ store s →
            ∃ q s', getRevisionById fuel root id s = Some (q, s') ∧
                    preserves s s' ∧ head s' = head s ∧
                    ((q = root ∧ s' = s ∧ ∃ r, st !! root = Some r ∧ uuid r = id) ∨
                     (∃ r, st !! q = Some r ∧ uuid r = id ∧ Revision_isEmpty r = false ∧
                           reachable st root q) ∨
                     newSentinel s q s')).
  { clear fuel root s. intros st fuel.
    induction fuel as [|fuel IH]; intros root Htree s Hsub; [done|].
    destruct Htree as (r & Hr & Hkids). simpl. unfold deref. run_unfold.
    rewrite (lookup_weaken _ _ _ _ Hr Hsub). simpl.
    destruct (decide (uuid r = id)) as [Hid|_].
    { exists root, s. split; [done|]. split; [apply preserves_refl|]. split; [done|].
      left. eauto. }
    destruct (searchChildren_outcome st id root
                (λ child, getRevisionById fuel child id) (children r)) with (s := s)
      as (q & s' & Hrun & Hpre & Hh & Hq); [|done|].
    - intros c Hc s1 Hsub1.
      destruct (IH c (proj1 (Forall_forall _ _) Hkids c Hc) s1 Hsub1)
        as (q & s' & Hrun & Hpre & Hh & Hq).
      exists q, s'. split; [done|]. split; [done|]. split; [done|].
      destruct Hq as [(-> & _ & rq & Hrq & Hu)|[(rq & Hrq & Hu & _ & Hreach)|Hnew]].
      + left. exists rq. eauto using reachable_below, reachable_here.
      + left. exists rq. eauto using reachable_below.
      + by right.
    - exists q, s'. split; [done|]. split; [done|]. split; [done|]. by right. }
  intros Htree. by apply (Hgen (store s)).
Qed.

(** X1: whatever the tree and the id, with fuel for the height of the tree the
    search returns, and in one of three ways: the start revision itself, when
    it carries the id (empty or not, and nothing is created); a revision
    below it that carries the id and is not empty; or a new empty sentinel.
    No existing object is written, and the head is not touched. *)
Theorem getRevisionById_outcome (fuel : nat) (root : Ptr) (id : string) (s : VCState) :
  treeWithin (store s) fuel root →
  ∃ q s', getRevisionById fuel root id s = Some (q, s') ∧
          preserves s s' ∧ head s' = head s ∧
          ((q = root ∧ s' = s ∧ ∃ r, store s !! root = Some r ∧ uuid r = id) ∨
           (∃ r, store s !! q = Some r ∧ uuid r = id ∧ Revision_isEmpty r = false ∧
                 reachable (store s) root q) ∨
           newSentinel s q s').
Proof. apply getRevisionById_run. Qed.

(** X2: a revision that carries the id but reports empty is passed over, unless
    the search starts on it: when the start revision does not carry the id
    and every revision below it that does is empty, the search returns a new
    sentinel, as if the id were unknown. *)
Theorem getRevisionById_skips_empty (fuel : nat) (root : Ptr) (r0 : Revision)
    (id : string) (s : VCState) :
  treeWithin (store s) fuel root →
  store s !! root = Some r0 → uuid r0 ≠ id →
  (∀ q r, reachable (store s) root q → store s !! q = Some r → uuid r = id →
          Revision_isEmpty r = true) →
  ∃ p s', getRevisionById fuel root id s = Some (p, s') ∧ newSentinel s p s'.
Proof.
  intros Htree Hr0 Hne Hempty.
  destruct (getRevisionById_run fuel root id s Htree)
    as (q & s' & Hrun & _ & _ & [(_ & _ & r & Hr & Hu)|[(r & Hr & Hu & He & Hreach)|Hnew]]).
  - congruence.
  - rewrite (Hempty q r Hreach Hr Hu) in He. discriminate.
  - eauto.
Qed.

Lemma getRevisionById_unique (fuel : nat) (root h : Ptr) (hr : Revision) (s : VCState) :
  treeWithin (store s) fuel root →
  reachable (store s) root h →
  store s !! h = Some hr → Revision_isEmpty hr = false →
  (∀ q r, reachable (store s) root q → store s !! q = Some r → uuid r = uuid hr → q = h) →
  ∃ s', getRevisionById fuel root (uuid hr) s = Some (h, s') ∧
        preserves s s' ∧ head s' = head s ∧ store s' !! h = Some hr.
Proof.
  intros Htree Hreach Hh Hne Huniq.
  destruct (getRevisionById_finds (store s) h hr fuel Hh Hne root Htree Hreach Huniq s)
    as (s' & Hrun); [done|].
  destruct (getRevisionById_returns (store s) (uuid hr) fuel root Htree s)
    as (q & s1 & Hrun1 & Hpre & Hhead & _); [done|].
  rewrite Hrun in Hrun1. injection Hrun1 as <- <-.
  exists s'. split; [done|]. split; [done|]. split; [done|].
  eapply lookup_weaken; [exact Hh | apply Hpre].
Qed.

(** X3: a revision of the tree that is not empty, and is the only one of the
    tree to carry its id, is what the search for that id returns; the search
    writes no existing object. *)
Theorem getRevisionById_found (fuel : nat) (root h : Ptr) (hr : Revision) (s : VCState) :
  treeWithin (store s) fuel root →
  reachable (store s) root h →
  store s !! h = Some hr → Revision_isEmpty hr = false →
  (∀ q r, reachable (store s) root q → store s !! q = Some r → uuid r = uuid hr → q = h) →
  ∃ s', getRevisionById fuel root (uuid hr) s = Some (h, s') ∧
        preserves s s' ∧ head s' = head s ∧ store s' !! h = Some hr.
Proof. apply getRevisionById_unique. Qed.

(** *** appendSubtree *)

(** X4: when every revision of the tree that carries the target id reports
    empty, and so when none carries it, [appendSubtree] drops the subtree
    without a sign: no existing object is written, the head is as before and
    no change message is sent. *)
Theorem appendSubtree_unknown_id (fuel : nat) (subtree : Ptr) (id : string) (s : VCState) :
  treeWithin (store s) fuel (rootRevision s) →
  (∀ q r, reachable (store s) (rootRevision s) q → store s !! q = Some r → uuid r = id →
          Revision_isEmpty r = true) →
  ∃ s', appendSubtree fuel subtree id s = Some (tt, s') ∧
        preserves s s' ∧ head s' = head s.
Proof.
  intros Htree Hempty. unfold appendSubtree.
  destruct (decide (id = "")) as [_|_].
  { exists s. split; [done|]. split; [apply preserves_refl | done]. }
  rewrite (bind_run _ _ _ _ _ (get_run s)).
  destruct (getRevisionById_run fuel (rootRevision s) id s Htree)
    as (q & s' & Hrun & Hpre & Hh & Hq).
  rewrite (bind_run _ _ _ _ _ Hrun). exists s'.
  destruct Hq as [(-> & -> & r & Hr & Hu)|[(r & Hr & Hu & He & Hreach)|Hnew]].
  - rewrite (bind_run _ _ _ _ _ (isEmpty_run _ _ _ Hr)).
    by rewrite (Hempty _ r (reachable_here _ _) Hr Hu).
  - rewrite (Hempty q r Hreach Hr Hu) in He. discriminate.
  - by rewrite (bind_run _ _ _ _ _ (newSentinel_isEmpty _ _ _ Hnew)).
Qed.

Lemma appendSubtree_run (fuel : nat) (subtree h : Ptr) (hr : Revision) (s : VCState) :
  treeWithin (store s) fuel (rootRevision s) →
  reachable (store s) (rootRevision s) h →
  store s !! h = Some hr → Revision_isEmpty hr = false → uuid hr ≠ "" →
  (∀ q r, reachable (store s) (rootRevision s) q → store s !! q = Some r →
          uuid r = uuid hr → q = h) →
  ∃ s', appendSubtree fuel subtree (uuid hr) s = Some (tt, s') ∧
        store s' !! h =
          Some (mkRevision (uuid hr) (message hr) (items hr) (children hr ++ [subtree])) ∧
        (∀ q x, q ≠ h → store s !! q = Some x → store s' !! q = Some x) ∧
        head s' = head s ∧ rootRevision s' = rootRevision s ∧
        stashes s' = stashes s ∧ pack s' = pack s ∧ live s' = live s ∧
        changes s' = changes s ++ [headingRevision (head s)].
Proof.
  intros Htree Hreach Hh Hne Hid Huniq. unfold appendSubtree.
  destruct (decide (uuid hr = "")) as [|_]; [done|].
  rewrite (bind_run _ _ _ _ _ (get_run s)).
  destruct (getRevisionById_unique fuel _ h hr s Htree Hreach Hh Hne Huniq)
    as (s1 & Hrun & (Hsub & Hpack & Hheading & Hst & Hroot & Hlive & Hch) & Hhead & Hh1).
  rewrite (bind_run _ _ _ _ _ Hrun).
  rewrite (bind_run _ _ _ _ _ (isEmpty_run _ _ _ Hh1)), Hne. simpl.
  unfold Revision_addChild, Revision_update, sendChangeMessage. run_unfold.
  rewrite Hh1. simpl. eexists. split; [reflexivity|]. simpl.
  rewrite lookup_insert_eq. split; [done|]. split.
  - intros q x Hq Hx. rewrite lookup_insert_ne by done. by eapply lookup_weaken.
  - repeat split; try done. by rewrite Hch, Hhead.
Qed.

(** X5: when the target id is carried by one revision of the tree only, and
    that revision is not empty, [appendSubtree] makes the subtree its last
    child, whatever the subtree is, and sends one change message; no other
    existing object is written and the head is as before. *)
Theorem appendSubtree_attaches (fuel : nat) (subtree h : Ptr) (hr : Revision) (s : VCState) :
  treeWithin (store s) fuel (rootRevision s) →
  reachable (store s) (rootRevision s) h →
  store s !! h = Some hr → Revision_isEmpty hr = false → uuid hr ≠ "" →
  (∀ q r, reachable (store s) (rootRevision s) q → store s !! q = Some r →
          uuid r = uuid hr → q = h) →
  ∃ s', appendSubtree fuel subtree (uuid hr) s = Some (tt, s') ∧
        store s' !! h =
          Some (mkRevision (uuid hr) (message hr) (items hr) (children hr ++ [subtree])) ∧
        (∀ q x, q ≠ h → store s !! q = Some x → store s' !! q = Some x) ∧
        head s' = head s ∧ rootRevision s' = rootRevision s ∧
        stashes s' = stashes s ∧ pack s' = pack s ∧ live s' = live s ∧
        changes s' = changes s ++ [headingRevision (head s)].
Proof. apply appendSubtree_run. Qed.

Lemma recursiveGetHashes_own_child (st : gmap Ptr Revision) (h : Ptr) (r : Revision) :
  st !! h = Some r → h ∈ children r →
  ∀ fuel, recursiveGetHashes fuel st h = None.
Proof.
  intros Hr Hin. induction fuel as [|fuel IH]; [done|].
  cbn [recursiveGetHashes]. rewrite Hr. simpl.
  rewrite (proj2 (mapM_None _ _)); [done|].
  apply Exists_exists. eauto.
Qed.

Lemma recursiveGetHashes_above (st : gmap Ptr Revision) (root h : Ptr) :
  reachable st root h →
  (∀ fuel, recursiveGetHashes fuel st h = None) →
  ∀ fuel, recursiveGetHashes fuel st root = None.
Proof.
  induction 1 as [|p c q r Hr Hc _ IH]; intros Hnone; [done|].
  intros [|fuel]; [done|]. cbn [recursiveGetHashes]. rewrite Hr. simpl.
  rewrite (proj2 (mapM_None _ _)); [done|].
  apply Exists_exists. exists c. split; [done|]. by apply IH.
Qed.

Lemma reachable_grown (st st' : gmap Ptr Revision) (p q : Ptr) :
  (∀ p r, st !! p = Some r →
          ∃ r', st' !! p = Some r' ∧ ∀ c, c ∈ children r → c ∈ children r') →
  reachable st p q → reachable st' p q.
Proof.
  intros Hgrow. induction 1 as [|p c q r Hr Hc _ IH]; [constructor|].
  destruct (Hgrow p r Hr) as (r' & Hr' & Hsub).
  eapply reachable_below; [exact Hr' | by apply Hsub | exact IH].
Qed.

(** X6: [appendSubtree] does not look at what it attaches.  Handed a revision of
    the tree as the subtree to put below itself, it closes a cycle: from then
    on the walk of [calculateHash] over the tree has no end, no amount of
    fuel gives a hash. *)
Theorem appendSubtree_below_itself (fuel : nat) (h : Ptr) (hr : Revision) (s : VCState) :
  treeWithin (store s) fuel (rootRevision s) →
  reachable (store s) (rootRevision s) h →
  store s !! h = Some hr → Revision_isEmpty hr = false → uuid hr ≠ "" →
  (∀ q r, reachable (store s) (rootRevision s) q → store s !! q = Some r →
          uuid r = uuid hr → q = h) →
  ∃ s', appendSubtree fuel h (uuid hr) s = Some (tt, s') ∧
        is_Some (calculateHash fuel s) ∧
        ∀ fuel', calculateHash fuel' s' = None.
Proof.
  intros Htree Hreach Hh Hne Hid Huniq.
  destruct (appendSubtree_run fuel h h hr s Htree Hreach Hh Hne Hid Huniq)
    as (s' & Hrun & Hh' & Hother & _ & Hroot & _).
  exists s'. split; [done|]. split.
  { unfold calculateHash. by destruct (recursiveGetHashes_total _ _ _ Htree) as [ids ->]. }
  intros fuel'. unfold calculateHash. rewrite Hroot.
  rewrite (recursiveGetHashes_above (store s') (rootRevision s) h); [done| |].
  - eapply reachable_grown; [|exact Hreach]. intros p r Hr.
    destruct (decide (p = h)) as [->|Hp].
    + rewrite Hh in Hr. injection Hr as <-. eexists. split; [exact Hh'|].
      simpl. intros c Hc. apply elem_of_app. by left.
    + exists r. split; [by apply Hother | done].
  - eapply recursiveGetHashes_own_child; [exact Hh'|]. simpl.
    apply elem_of_app. right. by apply list_elem_of_singleton.
Qed.

(** *** calculateHash *)

Lemma Revision_hashes_tree_only (st st' : gmap Ptr Revision) (fuel : nat) :
  ∀ p, (∀ q, reachable st p q → st' !! q = st !! q) →
       Revision_hashes fuel st' p = Revision_hashes fuel st p.
Proof.
  induction fuel as [|fuel IH]; intros p Hsame; [done|]. simpl.
  rewrite (Hsame p (reachable_here _ _)).
  destruct (st !! p) as [r|] eqn:Hr; [|done]. simpl.
  rewrite (Forall_mapM_ext (Revision_hashes fuel st') (Revision_hashes fuel st));
    [done|].
  apply Forall_forall. intros c Hc. apply IH. intros q Hq. apply Hsame.
  by eapply reachable_below.
Qed.

Lemma recursiveGetHashes_tree_only (st st' : gmap Ptr Revision) (fuel : nat) :
  ∀ p, (∀ q, reachable st p q → st' !! q = st !! q) →
       recursiveGetHashes fuel st' p = recursiveGetHashes fuel st p.
Proof.
  induction fuel as [|fuel IH]; intros p Hsame; [done|].
  cbn [recursiveGetHashes]. unfold Revision_calculateHash.
  rewrite (Revision_hashes_tree_only st st' (S fuel) p Hsame).
  rewrite (Hsame p (reachable_here _ _)).
  destruct (st !! p) as [r|] eqn:Hr; [|done]. simpl.
  rewrite (Forall_mapM_ext (recursiveGetHashes fuel st') (recursiveGetHashes fuel st));
    [done|].
  apply Forall_forall. intros c Hc. apply IH. intros q Hq. apply Hsame.
  by eapply reachable_below.
Qed.

(** X7: the hash of the history looks at the revisions that can be reached from
    the root and at nothing else: two states with the same root that agree on
    those revisions have the same hash, whatever their heads, stashes and
    packs, and whatever other objects they hold. *)
Theorem calculateHash_tree_only (fuel : nat) (s s' : VCState) :
  rootRevision s' = rootRevision s →
  (∀ q, reachable (store s) (rootRevision s) q → store s' !! q = store s !! q) →
  calculateHash fuel s' = calculateHash fuel s.
Proof.
  intros Hroot Hsame. unfold calculateHash. rewrite Hroot.
  by rewrite (recursiveGetHashes_tree_only (store s) (store s') fuel _ Hsame).
Qed.

Lemma reachable_is_Some (st : gmap Ptr Revision) (fuel : nat) :
  ∀ p q, treeWithin st fuel p → reachable st p q → is_Some (st !! q).
Proof.
  induction fuel as [|fuel IH]; intros p q Htree Hreach; [done|].
  destruct Htree as (r & Hr & Hkids).
  inversion Hreach as [|? c ? r' Hr' Hc Hcq]; subst; [eauto|].
  rewrite Hr in Hr'. injection Hr' as <-.
  eapply IH; [|exact Hcq]. by apply (proj1 (Forall_forall _ _) Hkids).
Qed.

Lemma calculateHash_preserved (fuel : nat) (s s' : VCState) :
  treeWithin (store s) fuel (rootRevision s) →
  store s ⊆ store s' → rootRevision s' = rootRevision s →
  calculateHash fuel s' = calculateHash fuel s.
Proof.
  intros Htree Hsub Hroot. unfold calculateHash. rewrite Hroot.
  rewrite (recursiveGetHashes_tree_only (store s) (store s') fuel); [done|].
  intros q Hq. destruct (reachable_is_Some _ _ _ _ Htree Hq) as [x Hx].
  rewrite Hx. by eapply lookup_weaken.
Qed.

(** *** applyStash *)


(** *** The quick stash *)

(** X9: the two guards read one answer, one of them negated: in every state one
    of [quickStashAll] and [applyQuickStash] refuses, changing nothing, and
    the other goes through, sends one change message and returns true; which
    one is told by [hasQuickStash]. *)
Theorem quickStash_one_refuses (s : VCState) :
  diffCached s →
  (∀ q, quickStash (stashes s) = Some q → is_Some (store s !! q)) →
  ∃ present, hasQuickStash s = Some (present, s) ∧
    if present then
      quickStashAll s = Some (false, s) ∧
      ∃ s', applyQuickStash s = Some (true, s') ∧
            changes s' = changes s ++ [headingRevision (head s)] ∧ head s' = head s
    else
      applyQuickStash s = Some (false, s) ∧
      ∃ s', quickStashAll s = Some (true, s') ∧
            changes s' = changes s ++ [headingRevision (head s)] ∧
            headingRevision (head s') = headingRevision (head s).
Proof.
  intros Hc Hq.
  exists (negb (Stashes_hasQuickStash (stashes s))). split; [done|].
  assert (Hhas : hasQuickStash s = Some (negb (Stashes_hasQuickStash (stashes s)), s))
    by done.
  destruct (negb (Stashes_hasQuickStash (stashes s))) eqn:Hb.
  - split; [unfold quickStashAll; by rewrite (bind_run _ _ _ _ _ Hhas)|].
    unfold applyQuickStash. rewrite (bind_run _ _ _ _ _ Hhas). simpl.
    rewrite (bind_run _ _ _ _ _ (get_run s)).
    unfold Stashes_getQuickStash, sendChangeMessage. run_unfold.
    destruct (quickStash (stashes s)) as [q|] eqn:Eq; simpl.
    + destruct (Hq q eq_refl) as [x ->]. simpl. eexists. split; [reflexivity|]. by simpl.
    + rewrite lookup_insert_eq. simpl. eexists. split; [reflexivity|]. by simpl.
  - split; [unfold applyQuickStash; by rewrite (bind_run _ _ _ _ _ Hhas)|].
    destruct (quickStashAll_proceeds s Hhas Hc) as (d & s' & Hrun & _ & Hch & Hh & _).
    exists s'. by repeat split.
Qed.

(** *** commit *)

Lemma arrayGet_elem_of {A} (l : list A) (index : Z) (x : A) :
  Juce.arrayGet l index = Some x → x ∈ l.
Proof.
  unfold Juce.arrayGet. destruct (index <? 0)%Z; [done|].
  apply list_elem_of_lookup_2.
Qed.

(** The selection loop of [commit] writes to the new revision only, and only
    to its items: each one it adds is an item of the diff.  It runs to its end
    exactly when no selected index is at or above the number of diff items;
    then, when the diff has one item per target, every selected item is in
    the new revision. *)
Lemma commitSelect_run (p : Ptr) (all : list RevisionItem) (sel : list Z) :
  ∀ s r, store s !! p = Some r →
  ∃ b s' r', commitSelect p all sel s = Some (b, s') ∧
     store s' = <[p := r']> (store s) ∧
     uuid r' = uuid r ∧ message r' = message r ∧ children r' = children r ∧
     (∀ i, i ∈ items r' → i ∈ items r ∨ i ∈ all) ∧
     ((∀ i j, i ∈ all → j ∈ all → targetId i = targetId j → i = j) → b = true →
        (∀ i, i ∈ items r → i ∈ all → i ∈ items r') ∧
        (∀ index i, index ∈ sel → Juce.arrayGet all index = Some i → i ∈ items r')) ∧
     (b = true ↔ Forall (λ index, (index < Z.of_nat (length all))%Z) sel) ∧
     pack s' = pack s ∧ head s' = head s ∧ stashes s' = stashes s ∧
     rootRevision s' = rootRevision s ∧ live s' = live s ∧ changes s' = changes s.
Proof.
  induction sel as [|index rest IH]; intros s r Hr.
  { exists true, s, r. simpl. split; [done|]. split; [by rewrite insert_id|].
    do 3 (split; [done|]). split; [auto|]. split; [|by repeat split].
    intros _ _. split; [auto|]. intros ? ? Hin. by apply elem_of_nil in Hin. }
  simpl. destruct (Z.leb_spec (Z.of_nat (length all)) index) as [Hle|Hlt].
  { exists false, s, r. split; [done|]. split; [by rewrite insert_id|].
    do 3 (split; [done|]). split; [auto|]. split; [done|].
    split; [|by repeat split].
    split; [done|]. intros HF. apply Forall_cons in HF as [? _]. lia. }
  assert (Hstep : ∀ t r1, store t !! p = Some r1 →
            store t = <[p := r1]> (store s) →
            uuid r1 = uuid r → message r1 = message r → children r1 = children r →
            (∀ i, i ∈ items r1 → i ∈ items r ∨ i ∈ all) →
            ((∀ i j, i ∈ all → j ∈ all → targetId i = targetId j → i = j) →
               (∀ i, i ∈ items r → i ∈ all → i ∈ items r1) ∧
               (∀ i, Juce.arrayGet all index = Some i → i ∈ items r1)) →
            pack t = pack s → head t = head s → stashes t = stashes s →
            rootRevision t = rootRevision s → live t = live s → changes t = changes s →
            ∃ b s' r', commitSelect p all rest t = Some (b, s') ∧
              store s' = <[p := r']> (store s) ∧
              uuid r' = uuid r ∧ message r' = message r ∧ children r' = children r ∧
              (∀ i, i ∈ items r' → i ∈ items r ∨ i ∈ all) ∧
              ((∀ i j, i ∈ all → j ∈ all → targetId i = targetId j → i = j) → b = true →
                 (∀ i, i ∈ items r → i ∈ all → i ∈ items r') ∧
                 (∀ index' i, index' ∈ index :: rest →
                              Juce.arrayGet all index' = Some i → i ∈ items r')) ∧
              (b = true ↔ Forall (λ index, (index < Z.of_nat (length all))%Z) (index :: rest)) ∧
              pack s' = pack s ∧ head s' = head s ∧ stashes s' = stashes s ∧
              rootRevision s' = rootRevision s ∧ live s' = live s ∧ changes s' = changes s).
  { intros t r1 Hr1 Hst1 Hu1 Hm1 Hk1 Hin1 Hkeep1 ? ? ? ? ? ?.
    destruct (IH t r1 Hr1)
      as (b & s' & r' & Hrun & Hst & Hu & Hm & Hk & Hin & Hkeep & Hb & ? & ? & ? & ? & ? & ?).
    exists b, s', r'. split; [done|].
    split; [by rewrite Hst, Hst1, insert_insert_eq|].
    do 3 (split; [congruence|]).
    split. { intros i Hi. destruct (Hin i Hi) as [Hi1|Hi1]; auto. }
    split.
    { intros Hinj Hbt. destruct (Hkeep Hinj Hbt) as [Hold Hsel].
      destruct (Hkeep1 Hinj) as [Hold1 Hsel1].
      split; [intros i Hi Hia; apply Hold; auto|].
      intros index' i Hidx Hget. pose proof (arrayGet_elem_of _ _ _ Hget) as Hia.
      apply elem_of_cons in Hidx as [->|Hidx]; [apply Hold; auto | eauto]. }
    split; [|repeat split; congruence].
    rewrite Hb, Forall_cons. split; [auto | by intros [_ ?]]. }
  destruct (Juce.arrayGet all index) as [item|] eqn:Hget.
  - unfold Revision_addItem, Revision_update. run_unfold. rewrite Hr. simpl.
    pose proof (arrayGet_elem_of _ _ _ Hget) as Hitem.
    eapply Hstep; [apply lookup_insert_eq|simpl..]; try done.
    + intros i Hi. apply elem_of_app in Hi as [Hi|Hi].
      * apply list_elem_of_filter in Hi as [_ Hi]. auto.
      * apply list_elem_of_singleton in Hi as ->. auto.
    + intros Hinj. split.
      * intros i Hi Hia. apply elem_of_app.
        destruct (decide (targetId i = targetId item)) as [Heq|Hne].
        -- right. apply list_elem_of_singleton. by apply Hinj.
        -- left. by apply list_elem_of_filter.
      * intros i [= <-]. apply elem_of_app. right. by apply list_elem_of_singleton.
  - run_unfold. simpl. apply (Hstep s r); try done.
    + by rewrite insert_id.
    + auto.
Qed.

Lemma head_getDiff_origin (s s' : VCState) (d : Ptr) :
  head_getDiff s = Some (d, s') → diff (head s) = Some d ∨ store s !! d = None.
Proof.
  unfold head_getDiff, head_moveTo. run_unfold.
  destruct (indexValid (head s)) eqn:Ev;
    [|destruct (headingRevision (head s)) as [r|] eqn:Eh]; simpl;
    (destruct (diff (head s)) as [d0|] eqn:Ed;
       [destruct (diffOutdated (head s)) eqn:Eo|]); simpl;
    intros [= <- <-]; auto using fresh_unused.
Qed.

Lemma Pack_store_all_entries (its : list RevisionItem) (pk : Pack) :
  entries pk ⊆ entries (foldl (λ acc i, Pack_store (payload i) acc) pk its).
Proof.
  revert pk. induction its as [|i its IH]; intros pk; [done|]. simpl.
  etrans; [|apply IH]. unfold Pack_store.
  destruct (entries pk !! payloadHash (payload i)) eqn:E; [done|]. simpl.
  by apply insert_subseteq.
Qed.

Lemma Pack_flush_entries (pk : Pack) : entries (Pack_flush pk).2 = entries pk.
Proof. unfold Pack_flush. by destruct (Pack_persists pk). Qed.

Lemma selection_out_of_range (n : nat) (sel : list Z) :
  ¬ Forall (λ index, (index < Z.of_nat n)%Z) sel →
  Exists (λ index, (Z.of_nat n ≤ index)%Z) sel.
Proof.
  intros Hnot. apply not_Forall_Exists in Hnot; [|apply _].
  eapply Exists_impl; [exact Hnot|]. simpl. intros index. lia.
Qed.

Lemma commit_run (selectedItems : list Z) (msg : string) (heading : Ptr)
    (hr : Revision) (s : VCState) :
  diffCached s →
  headingRevision (head s) = Some heading →
  store s !! heading = Some hr →
  ∃ b s', commit selectedItems msg s = Some (b, s') ∧
    if (b : bool) then
      ∃ p its d all,
        store s !! p = None ∧
        store s' !! p = Some (mkRevision (freshUuid p) msg its []) ∧
        store s' !! heading =
          Some (mkRevision (uuid hr) (message hr) (items hr) (children hr ++ [p])) ∧
        (∀ q r, store s !! q = Some r → q ≠ heading → store s' !! q = Some r) ∧
        headingRevision (head s') = Some p ∧ indexValid (head s') = true ∧
        changes s' = changes s ++ [Some p] ∧
        pack s' = (Pack_flush (foldl (λ acc i, Pack_store (payload i) acc) (pack s) its)).2 ∧
        entries (pack s) ⊆ entries (pack s') ∧
        stashes s' = stashes s ∧ rootRevision s' = rootRevision s ∧ live s' = live s ∧
        diff (head s') = Some d ∧ items <$> store s' !! d = Some all ∧
        selectedItems ≠ [] ∧
        Forall (λ index, (index < Z.of_nat (length all))%Z) selectedItems ∧
        (∀ i, i ∈ its → i ∈ all) ∧
        ((∀ i j, i ∈ all → j ∈ all → targetId i = targetId j → i = j) →
         ∀ index i, index ∈ selectedItems → Juce.arrayGet all index = Some i → i ∈ its)
    else
      preserves s s' ∧
      (selectedItems = [] ∨
       ∃ d all, diff (head s') = Some d ∧ store s' !! d = Some all ∧
                Exists (λ index, (Z.of_nat (length (items all)) ≤ index)%Z) selectedItems).
Proof.
  intros Hc Hh Hhr. unfold commit.
  destruct (decide (length selectedItems = 0)) as [Hlen|Hlen].
  { exists false, s. split; [done|]. split; [apply preserves_refl|].
    left. by apply nil_length_inv. }
  assert (Hsel : selectedItems ≠ []) by (by intros ->).
  destruct (Revision_new_run msg s) as (p & s1 & Hnew & Hfresh & Hst1 & Hhead1 & Hpre1).
  rewrite (bind_run _ _ _ _ _ Hnew).
  assert (Hc1 : diffCached s1).
  { intros d Hd. rewrite Hhead1 in Hd. destruct (Hc d Hd) as [x Hx].
    exists x. by eapply lookup_weaken, Hpre1. }
  destruct (head_getDiff_run s1 Hc1)
    as (d & s2 & Hdiff & [all Hall] & Hd2 & _ & Hpre2).
  rewrite (bind_run _ _ _ _ _ Hdiff).
  assert (Hdp : d ≠ p).
  { intros ->. destruct (head_getDiff_origin _ _ _ Hdiff) as [Hd|Hd].
    - rewrite Hhead1 in Hd. destruct (Hc p Hd) as [x Hx]. congruence.
    - rewrite Hst1, lookup_insert_eq in Hd. done. }
  pose proof (preserves_trans _ _ _ Hpre1 Hpre2)
    as (Hsub & Hpack2 & Hh2 & Hstash2 & Hroot2 & Hlive2 & Hch2).
  assert (Hp2 : store s2 !! p = Some (mkRevision (freshUuid p) msg [] [])).
  { eapply lookup_weaken; [|apply Hpre2]. rewrite Hst1. apply lookup_insert_eq. }
  assert (Hhr2 : store s2 !! heading = Some hr) by (by eapply lookup_weaken).
  assert (Hne : heading ≠ p) by (intros ->; congruence).
  unfold deref at 1. rewrite (bind_run _ (λ all, _) s2 s2 all)
    by (unfold liftOption; by rewrite Hall).
  destruct (commitSelect_run p (items all) selectedItems s2 _ Hp2)
    as (b & s3 & r' & Hrun & Hst3 & Hu & Hm & Hk & Hin & Hkeep & Hb &
        Hpack3 & Hhead3 & Hstash3 & Hroot3 & Hlive3 & Hch3).
  rewrite (bind_run _ _ _ _ _ Hrun). destruct b; simpl.
  - unfold head_getHeadingRevision, Revision_addChild, Revision_update,
      head_moveTo, Revision_flush, pack_flush, sendChangeMessage.
    run_unfold. simpl. rewrite Hhead3, Hh2, Hh. simpl.
    rewrite Hst3, lookup_insert_ne, Hhr2 by done. simpl.
    rewrite lookup_insert_ne, Hst3, lookup_insert_eq by done. simpl.
    eexists true, _. split; [reflexivity|]. simpl.
    exists p, (items r'), d, (items all).
    rewrite lookup_insert_eq, lookup_insert_ne, Hst3, lookup_insert_eq by done.
    split; [done|]. split.
    { f_equal. destruct r'; simpl in *. by subst. }
    split; [done|]. split.
    { intros q r Hq Hqh. rewrite !lookup_insert_ne by congruence.
      by eapply lookup_weaken. }
    do 2 (split; [done|]). split; [by rewrite Hch3, Hch2|].
    split; [by rewrite Hpack3, Hpack2|]. split.
    { rewrite Pack_flush_entries, Hpack3, Hpack2.
      apply (Pack_store_all_entries _ (pack s)). }
    split; [congruence|]. split; [congruence|]. split; [congruence|].
    split; [by rewrite Hhead3|]. split.
    { destruct (decide (d = heading)) as [->|Hdh].
      - rewrite lookup_insert_eq. simpl. congruence.
      - rewrite !lookup_insert_ne by done. by rewrite Hall. }
    split; [done|]. split; [by apply Hb|]. split.
    { intros i Hi. destruct (Hin i Hi) as [Hi'|Hi']; [|done]. by apply elem_of_nil in Hi'. }
    intros Hinj. by apply (Hkeep Hinj eq_refl).
  - exists false, s3. split; [done|]. split.
    + repeat split; try congruence.
      rewrite Hst3. apply map_subseteq_spec. intros q x Hq.
      rewrite lookup_insert_ne by congruence. by eapply lookup_weaken.
    + right. exists d, all. split; [by rewrite Hhead3|].
      split; [by rewrite Hst3, lookup_insert_ne|].
      apply selection_out_of_range. intros HF. by apply Hb in HF.
Qed.

(** X10: [commit] with a bound head either returns false, and then no object that
    existed is changed and the head, the root, the pack, the stashes, the live
    items and the messages sent are as before; or it returns true, and then
    one new revision with the message and no children is the new last child of
    the former heading revision, the head is on it with a valid index, one
    change message is sent with the head already there, and no other object
    is changed; the payloads of its items are pushed into the pack and the
    pack is flushed, so that no entry is lost, and whether the write went
    through is not looked at.  It returns true exactly
    when the selection is not empty and no selected index is at or above the
    number of items of the diff; the items of the new revision are items of
    the diff, and all of the selected ones when the diff has one item per
    target. *)
Theorem commit_outcome (selectedItems : list Z) (msg : string) (heading : Ptr)
    (hr : Revision) (s : VCState) :
  diffCached s →
  headingRevision (head s) = Some heading →
  store s !! heading = Some hr →
  ∃ b s', commit selectedItems msg s = Some (b, s') ∧
    if (b : bool) then
      ∃ p its d all,
        store s !! p = None ∧
        store s' !! p = Some (mkRevision (freshUuid p) msg its []) ∧
        store s' !! heading =
          Some (mkRevision (uuid hr) (message hr) (items hr) (children hr ++ [p])) ∧
        (∀ q r, store s !! q = Some r → q ≠ heading → store s' !! q = Some r) ∧
        headingRevision (head s') = Some p ∧ indexValid (head s') = true ∧
        changes s' = changes s ++ [Some p] ∧
        pack s' = (Pack_flush (foldl (λ acc i, Pack_store (payload i) acc) (pack s) its)).2 ∧
        entries (pack s) ⊆ entries (pack s') ∧
        stashes s' = stashes s ∧ rootRevision s' = rootRevision s ∧ live s' = live s ∧
        diff (head s') = Some d ∧ items <$> store s' !! d = Some all ∧
        selectedItems ≠ [] ∧
        Forall (λ index, (index < Z.of_nat (length all))%Z) selectedItems ∧
        (∀ i, i ∈ its → i ∈ all) ∧
        ((∀ i j, i ∈ all → j ∈ all → targetId i = targetId j → i = j) →
         ∀ index i, index ∈ selectedItems → Juce.arrayGet all index = Some i → i ∈ its)
    else
      preserves s s' ∧
      (selectedItems = [] ∨
       ∃ d all, diff (head s') = Some d ∧ store s' !! d = Some all ∧
                Exists (λ index, (Z.of_nat (length (items all)) ≤ index)%Z) selectedItems).
Proof. apply commit_run. Qed.

Lemma treeWithin_grow (st st' : gmap Ptr Revision) (p : Ptr) (leaf : Revision) (fuel : nat) :
  (∀ q r, st !! q = Some r →
          ∃ r', st' !! q = Some r' ∧ ∀ c, c ∈ children r' → c ∈ children r ∨ c = p) →
  st' !! p = Some leaf → children leaf = [] →
  ∀ q, treeWithin st fuel q → treeWithin st' (S fuel) q.
Proof.
  intros Hgrow Hp Hleaf. induction fuel as [|fuel IH]; intros q Htree; [done|].
  destruct Htree as (r & Hr & Hkids).
  destruct (Hgrow q r Hr) as (r' & Hr' & Hsub).
  exists r'. split; [done|]. apply Forall_forall. intros c Hc.
  destruct (Hsub c Hc) as [Hc'| ->].
  - apply IH. by apply (proj1 (Forall_forall _ _) Hkids).
  - exists leaf. split; [done|]. rewrite Hleaf. constructor.
Qed.

Lemma treeWithin_weaken (st st' : gmap Ptr Revision) (fuel : nat) :
  st ⊆ st' → ∀ q, treeWithin st fuel q → treeWithin st' (S fuel) q.
Proof.
  intros Hsub. induction fuel as [|fuel IH]; intros q Htree; [done|].
  destruct Htree as (r & Hr & Hkids). exists r.
  split; [by eapply lookup_weaken|]. eapply Forall_impl; [exact Hkids | exact IH].
Qed.

(** X18: [commit] keeps the history a tree, and can be repeated: from a state
    whose history is a tree of height at most [fuel], whose head is bound to
    an existing revision and whose cached diff exists, it leads, whatever it
    returns, to a state whose history is a tree of height at most [fuel + 1],
    on which [calculateHash] gives a hash, and whose head is again bound to an
    existing revision and whose cached diff exists. *)
Theorem commit_keeps_tree (selectedItems : list Z) (msg : string) (heading : Ptr)
    (hr : Revision) (fuel : nat) (s : VCState) :
  diffCached s →
  headingRevision (head s) = Some heading →
  store s !! heading = Some hr →
  treeWithin (store s) fuel (rootRevision s) →
  ∃ b s', commit selectedItems msg s = Some (b, s') ∧
          treeWithin (store s') (S fuel) (rootRevision s') ∧
          is_Some (calculateHash (S fuel) s') ∧
          diffCached s' ∧
          ∃ h, headingRevision (head s') = Some h ∧ is_Some (store s' !! h).
Proof.
  intros Hc Hh Hhr Htree.
  destruct (commit_run selectedItems msg heading hr s Hc Hh Hhr) as (b & s' & Hrun & H).
  exists b, s'. split; [done|].
  assert (Htree' : treeWithin (store s') (S fuel) (rootRevision s')).
  { destruct b.
    - destruct H as (p & its & d & all & Hfresh & Hp & Hheading & Hother & _ & _ & _ &
                     _ & _ & _ & Hroot & _).
      rewrite Hroot.
      eapply (treeWithin_grow (store s) (store s') p); [|exact Hp|done|done].
      intros q r Hq. destruct (decide (q = heading)) as [->|Hne].
      + rewrite Hhr in Hq. injection Hq as <-. eexists. split; [exact Hheading|].
        simpl. intros c Hc'. apply elem_of_app in Hc' as [?|Hc']; [by left|].
        right. by apply list_elem_of_singleton in Hc'.
      + exists r. split; [by apply Hother | auto].
    - destruct H as [(Hsub & _ & _ & _ & Hroot & _) _]. rewrite Hroot.
      by apply (treeWithin_weaken (store s)). }
  split; [done|]. split.
  { unfold calculateHash. by destruct (recursiveGetHashes_total _ _ _ Htree') as [ids ->]. }
  destruct b.
  - destruct H as (p & its & d & all & _ & Hp & _ & _ & Hhead & _ & _ & _ & _ & _ & _ &
                   _ & Hd & Hall & _).
    split; [|by eauto].
    intros d' Hd'. rewrite Hd in Hd'. injection Hd' as <-.
    destruct (store s' !! d); [eauto | done].
  - destruct H as [(Hsub & _ & Hhead & _) [->|(d & all & Hd & Hall & _)]].
    + rewrite commit_empty_selection in Hrun. injection Hrun as <-. eauto.
    + split.
      * intros d' Hd'. rewrite Hd in Hd'. injection Hd' as <-. eauto.
      * exists heading. split; [congruence|]. exists hr. by eapply lookup_weaken.
Qed.


(** *** resetChanges and resetAllChanges *)

Lemma selectChanges_run (all : list RevisionItem) (sel : list Z) :
  ∀ acc, match selectChanges all sel acc with
         | Some chosen => Forall (λ index, (index < Z.of_nat (length all))%Z) sel ∧
                          ∀ i, i ∈ chosen → i ∈ acc ∨ i ∈ all
         | None => Exists (λ index, (Z.of_nat (length all) ≤ index)%Z) sel
         end.
Proof.
  induction sel as [|index rest IH]; intros acc; simpl; [auto|].
  destruct (Z.leb_spec (Z.of_nat (length all)) index) as [Hle|Hlt].
  { by apply Exists_cons_hd. }
  specialize (IH (match Juce.arrayGet all index with
                  | Some item => acc ++ [item] | None => acc end)).
  destruct (selectChanges all rest _) as [chosen|]; [|by apply Exists_cons_tl].
  destruct IH as [HF Hin]. split; [by constructor|].
  intros i Hi. destruct (Hin i Hi) as [Hi'|Hi']; [|auto].
  destruct (Juce.arrayGet all index) as [item|] eqn:Hget; [|auto].
  apply elem_of_app in Hi' as [?|Hi']; [auto|].
  apply list_elem_of_singleton in Hi' as ->. right. by eapply arrayGet_elem_of.
Qed.

Lemma selectChanges_seq (all : list RevisionItem) (n : nat) :
  ∀ k acc, k + n ≤ length all →
           selectChanges all (Z.of_nat <$> seq k n) acc = Some (acc ++ take n (drop k all)).
Proof.
  induction n as [|n IH]; intros k acc Hlen; simpl.
  { by rewrite app_nil_r. }
  destruct (Z.leb_spec (Z.of_nat (length all)) (Z.of_nat k)) as [Hle|_]; [lia|].
  destruct (lookup_lt_is_Some_2 all k) as [x Hx]; [lia|].
  unfold Juce.arrayGet. destruct (Z.ltb_spec (Z.of_nat k) 0) as [?|_]; [lia|].
  rewrite Nat2Z.id, Hx, IH by lia.
  rewrite (drop_S all x k Hx). simpl. by rewrite <- app_assoc.
Qed.

Lemma head_getDiff_cached (d : Ptr) (s : VCState) :
  diff (head s) = Some d → diffOutdated (head s) = false →
  ∃ s', head_getDiff s = Some (d, s') ∧ store s' = store s ∧
        diff (head s') = Some d ∧ diffOutdated (head s') = false ∧ preserves s s'.
Proof.
  intros Hd Ho. unfold head_getDiff, head_moveTo. run_unfold.
  destruct (indexValid (head s)) eqn:Ev;
    [|destruct (headingRevision (head s)) as [r|] eqn:Eh]; simpl;
    rewrite Hd, Ho; eexists; (split; [reflexivity|]); unfold preserves; simpl;
    rewrite ?Eh; by repeat split.
Qed.

Lemma resetChanges_run (sel : list Z) (s : VCState) :
  diffCached s →
  ∃ b s', resetChanges sel s = Some (b, s') ∧
    store s ⊆ store s' ∧ pack s' = pack s ∧
    headingRevision (head s') = headingRevision (head s) ∧
    stashes s' = stashes s ∧ rootRevision s' = rootRevision s ∧
    changes s' = changes s ∧
    if (b : bool) then
      ∃ d all chosen, diff (head s') = Some d ∧ store s' !! d = Some all ∧
        sel ≠ [] ∧ Forall (λ index, (index < Z.of_nat (length (items all)))%Z) sel ∧
        (∀ i, i ∈ chosen → i ∈ items all) ∧
        live s' = Head_resetChanges chosen (head s') (live s)
    else live s' = live s.
Proof.
  intros Hc. unfold resetChanges.
  destruct (decide (length sel = 0)) as [Hlen|Hlen].
  { exists false, s. by repeat split. }
  assert (Hsel : sel ≠ []) by (by intros ->).
  destruct (head_getDiff_run s Hc)
    as (d & s1 & Hrun & [all Hall] & Hd1 & _ & Hsub & ? & ? & ? & ? & ? & ?).
  rewrite (bind_run _ _ _ _ _ Hrun).
  unfold deref at 1. rewrite (bind_run _ (λ all, _) s1 s1 all)
    by (unfold liftOption; by rewrite Hall).
  pose proof (selectChanges_run (items all) sel []) as Hsc.
  destruct (selectChanges (items all) sel []) as [chosen|].
  - destruct Hsc as [HF Hin]. run_unfold. simpl.
    eexists true, _. split; [reflexivity|]. simpl. do 6 (split; [done|]).
    exists d, all, chosen. repeat split; try done; [|congruence].
    intros i Hi. destruct (Hin i Hi) as [Hi'|]; [|done]. by apply elem_of_nil in Hi'.
  - exists false, s1. by repeat split.
Qed.

(** X11: [resetChanges] and [resetAllChanges] act on the live items only: no
    object that existed is changed, the heading revision, the root, the pack
    and the stashes are as before, and no change message is sent.
    [resetAllChanges] always returns true; [resetChanges] returns true only
    for a selection that is not empty and has no index at or above the number
    of items of the diff, and leaves the live items alone when it returns
    false. *)
Theorem resetChanges_send_nothing (selectedItems : list Z) (s : VCState) :
  diffCached s →
  (∃ b s', resetChanges selectedItems s = Some (b, s') ∧
     store s ⊆ store s' ∧ pack s' = pack s ∧
     headingRevision (head s') = headingRevision (head s) ∧
     stashes s' = stashes s ∧ rootRevision s' = rootRevision s ∧
     changes s' = changes s ∧
     if (b : bool) then
       ∃ d all chosen, diff (head s') = Some d ∧ store s' !! d = Some all ∧
         selectedItems ≠ [] ∧
         Forall (λ index, (index < Z.of_nat (length (items all)))%Z) selectedItems ∧
         (∀ i, i ∈ chosen → i ∈ items all) ∧
         live s' = Head_resetChanges chosen (head s') (live s)
     else live s' = live s) ∧
  (∃ s', resetAllChanges s = Some (true, s') ∧
     store s ⊆ store s' ∧ pack s' = pack s ∧
     headingRevision (head s') = headingRevision (head s) ∧
     stashes s' = stashes s ∧ rootRevision s' = rootRevision s ∧
     changes s' = changes s).
Proof.
  intros Hc. split; [by apply resetChanges_run | by apply resetAllChanges_run].
Qed.

(** X12: selecting every item of a diff that is not empty is [resetAllChanges]:
    the two methods return the same and leave the same state. *)
Theorem resetChanges_whole_diff (s s1 : VCState) (d : Ptr) (all : Revision) :
  head_getDiff s = Some (d, s1) →
  store s1 !! d = Some all →
  items all ≠ [] →
  resetChanges (Z.of_nat <$> seq 0 (length (items all))) s = resetAllChanges s.
Proof.
  intros Hdiff Hall Hne. unfold resetChanges, resetAllChanges.
  destruct (decide (length (Z.of_nat <$> seq 0 (length (items all))) = 0)) as [Hlen|_].
  { rewrite length_fmap, length_seq in Hlen. by apply nil_length_inv in Hlen. }
  rewrite !(bind_run _ _ _ _ _ Hdiff).
  unfold deref at 1 2. rewrite !(bind_run _ (λ all, _) s1 s1 all)
    by (unfold liftOption; by rewrite Hall).
  rewrite selectChanges_seq by lia. simpl. by rewrite drop_0, firstn_all.
Qed.

(** *** stash *)

Lemma stashSelect_run (p : Ptr) (all : list RevisionItem) (sel : list Z) :
  Forall (λ index, (0 ≤ index)%Z) sel →
  ∀ s r, store s !! p = Some r →
  ∃ b s' r', stashSelect p all sel s = Some (b, s') ∧
     store s' = <[p := r']> (store s) ∧
     uuid r' = uuid r ∧ message r' = message r ∧ children r' = children r ∧
     (∀ i, i ∈ items r' → i ∈ items r ∨ i ∈ all) ∧
     (b = true ↔ Forall (λ index, (index < Z.of_nat (length all))%Z) sel) ∧
     pack s' = pack s ∧ head s' = head s ∧ stashes s' = stashes s ∧
     rootRevision s' = rootRevision s ∧ live s' = live s ∧ changes s' = changes s.
Proof.
  intros Hpos. induction Hpos as [|index rest Hidx Hpos IH]; intros s r Hr.
  { exists true, s, r. simpl. split; [done|]. split; [by rewrite insert_id|].
    do 3 (split; [done|]). split; [auto|]. by repeat split. }
  simpl. destruct (Z.leb_spec (Z.of_nat (length all)) index) as [Hle|Hlt].
  { exists false, s, r. split; [done|]. split; [by rewrite insert_id|].
    do 3 (split; [done|]). split; [auto|]. split; [|by repeat split].
    split; [done|]. intros HF. apply Forall_cons in HF as [? _]. lia. }
  destruct (Juce.arrayGet all index) as [item|] eqn:Hget.
  2:{ unfold Juce.arrayGet in Hget. destruct (Z.ltb_spec index 0); [lia|].
      apply lookup_ge_None in Hget. lia. }
  pose proof (arrayGet_elem_of _ _ _ Hget) as Hitem.
  unfold Revision_addItem, Revision_update. run_unfold. rewrite Hr. simpl.
  match goal with |- context [stashSelect _ _ rest ?t] =>
    edestruct (IH t) as (b & s' & r' & Hrun & Hst & Hu & Hm & Hk & Hin & Hb &
                         ? & ? & ? & ? & ? & ?);
      [simpl; apply lookup_insert_eq|] end.
  exists b, s', r'. split; [done|]. simpl in *.
  split; [by rewrite Hst, insert_insert_eq|].
  do 3 (split; [done|]). split.
  { intros i Hi. destruct (Hin i Hi) as [Hi'|Hi']; [|auto].
    apply elem_of_app in Hi' as [Hi'|Hi'].
    - apply list_elem_of_filter in Hi' as [_ ?]. auto.
    - apply list_elem_of_singleton in Hi' as ->. auto. }
  split; [|by repeat split]. rewrite Hb, Forall_cons. split; [auto | by intros [_ ?]].
Qed.

(** X13: [stash] of a selection without negative indices never touches the
    history: no object that existed is changed, the heading revision, the
    root and the pack are as before, and the hash of the history is the same.
    When it returns false the stashes and the live items are as before too and
    no change message is sent.  When it returns true one new revision with
    the message and no children, made of items of the diff, is the new last
    stash, one change message is sent, and the live items are as before if
    the changes are to be kept.  It returns true exactly when the selection
    is not empty and every selected index is below the number of items of the
    diff. *)
Theorem stash_outcome (selectedItems : list Z) (msg : string)
    (shouldKeepChanges : bool) (s : VCState) :
  diffCached s →
  Forall (λ index, (0 ≤ index)%Z) selectedItems →
  ∃ b s', stash selectedItems msg shouldKeepChanges s = Some (b, s') ∧
    store s ⊆ store s' ∧ pack s' = pack s ∧
    headingRevision (head s') = headingRevision (head s) ∧
    rootRevision s' = rootRevision s ∧
    (∀ fuel, treeWithin (store s) fuel (rootRevision s) →
             calculateHash fuel s' = calculateHash fuel s) ∧
    if (b : bool) then
      ∃ p its d all,
        store s !! p = None ∧
        store s' !! p = Some (mkRevision (freshUuid p) msg its []) ∧
        stashes s' = Stashes_addStash p (stashes s) ∧
        changes s' = changes s ++ [headingRevision (head s)] ∧
        (shouldKeepChanges = true → live s' = live s) ∧
        diff (head s') = Some d ∧ store s' !! d = Some all ∧
        selectedItems ≠ [] ∧
        Forall (λ index, (index < Z.of_nat (length (items all)))%Z) selectedItems ∧
        (∀ i, i ∈ its → i ∈ items all)
    else
      stashes s' = stashes s ∧ live s' = live s ∧ changes s' = changes s ∧
      (selectedItems = [] ∨
       ∃ d all, diff (head s') = Some d ∧ store s' !! d = Some all ∧
                Exists (λ index, (Z.of_nat (length (items all)) ≤ index)%Z) selectedItems).
Proof.
  intros Hc Hpos.
  cut (∃ b s', stash selectedItems msg shouldKeepChanges s = Some (b, s') ∧
    store s ⊆ store s' ∧ pack s' = pack s ∧
    headingRevision (head s') = headingRevision (head s) ∧
    rootRevision s' = rootRevision s ∧
    if (b : bool) then
      ∃ p its d all,
        store s !! p = None ∧
        store s' !! p = Some (mkRevision (freshUuid p) msg its []) ∧
        stashes s' = Stashes_addStash p (stashes s) ∧
        changes s' = changes s ++ [headingRevision (head s)] ∧
        (shouldKeepChanges = true → live s' = live s) ∧
        diff (head s') = Some d ∧ store s' !! d = Some all ∧
        selectedItems ≠ [] ∧
        Forall (λ index, (index < Z.of_nat (length (items all)))%Z) selectedItems ∧
        (∀ i, i ∈ its → i ∈ items all)
    else
      stashes s' = stashes s ∧ live s' = live s ∧ changes s' = changes s ∧
      (selectedItems = [] ∨
       ∃ d all, diff (head s') = Some d ∧ store s' !! d = Some all ∧
                Exists (λ index, (Z.of_nat (length (items all)) ≤ index)%Z) selectedItems)).
  { intros (b & s' & Hrun & Hsub & ? & ? & Hroot & Hrest).
    exists b, s'. do 5 (split; [done|]). split; [|done].
    intros fuel Htree. by apply calculateHash_preserved. }
  unfold stash.
  destruct (decide (length selectedItems = 0)) as [Hlen|Hlen].
  { exists false, s. do 8 (split; [done|]). left. by apply nil_length_inv. }
  assert (Hsel : selectedItems ≠ []) by (by intros ->).
  destruct (Revision_new_run msg s) as (p & s1 & Hnew & Hfresh & Hst1 & Hhead1 & Hpre1).
  rewrite (bind_run _ _ _ _ _ Hnew).
  assert (Hc1 : diffCached s1).
  { intros d Hd. rewrite Hhead1 in Hd. destruct (Hc d Hd) as [x Hx].
    exists x. by eapply lookup_weaken, Hpre1. }
  destruct (head_getDiff_run s1 Hc1)
    as (d & s2 & Hdiff & [all Hall] & Hd2 & Ho2 & Hpre2).
  rewrite (bind_run _ _ _ _ _ Hdiff).
  assert (Hdp : d ≠ p).
  { intros ->. destruct (head_getDiff_origin _ _ _ Hdiff) as [Hd|Hd].
    - rewrite Hhead1 in Hd. destruct (Hc p Hd) as [x Hx]. congruence.
    - rewrite Hst1, lookup_insert_eq in Hd. done. }
  pose proof (preserves_trans _ _ _ Hpre1 Hpre2)
    as (Hsub & Hpack2 & Hh2 & Hstash2 & Hroot2 & Hlive2 & Hch2).
  assert (Hp2 : store s2 !! p = Some (mkRevision (freshUuid p) msg [] [])).
  { eapply lookup_weaken; [|apply Hpre2]. rewrite Hst1. apply lookup_insert_eq. }
  unfold deref at 1. rewrite (bind_run _ (λ all, _) s2 s2 all)
    by (unfold liftOption; by rewrite Hall).
  destruct (stashSelect_run p (items all) selectedItems Hpos s2 _ Hp2)
    as (b & s3 & r' & Hrun & Hst3 & Hu & Hm & Hk & Hin & Hb &
        Hpack3 & Hhead3 & Hstash3 & Hroot3 & Hlive3 & Hch3).
  rewrite (bind_run _ _ _ _ _ Hrun).
  assert (Hsub3 : store s ⊆ store s3).
  { rewrite Hst3. apply map_subseteq_spec. intros q x Hq.
    rewrite lookup_insert_ne by congruence. by eapply lookup_weaken. }
  destruct b; simpl.
  2:{ exists false, s3. split; [done|]. split; [done|].
      do 6 (split; [congruence|]). right. exists d, all.
      split; [by rewrite Hhead3|]. split; [by rewrite Hst3, lookup_insert_ne|].
      apply selection_out_of_range. intros HF. by apply Hb in HF. }
  assert (Hr' : r' = mkRevision (freshUuid p) msg (items r') []).
  { destruct r'; simpl in *. by subst. }
  assert (Hits : ∀ i, i ∈ items r' → i ∈ items all).
  { intros i Hi. destruct (Hin i Hi) as [Hi'|Hi']; [|done]. by apply elem_of_nil in Hi'. }
  rewrite (bind_run _ _ _ _ _ (modify_run _ s3)).
  set (s4 := set_stashes (Stashes_addStash p) s3).
  destruct shouldKeepChanges; simpl.
  - unfold sendChangeMessage. run_unfold. simpl.
    eexists true, _. split; [reflexivity|]. simpl.
    split; [done|]. split; [congruence|]. split; [by rewrite Hhead3|].
    split; [congruence|].
    exists p, (items r'), d, all.
    rewrite Hst3, lookup_insert_eq, lookup_insert_ne by done.
    split; [done|]. split; [congruence|]. split; [by rewrite Hstash3, Hstash2|].
    split; [by rewrite Hch3, Hch2, Hhead3, Hh2|]. split; [congruence|].
    split; [by rewrite Hhead3|]. split; [done|]. split; [done|].
    split; [by apply Hb | done].
  - destruct (head_getDiff_cached d s4) as (s5 & Hrun5 & Hst5 & Hd5 & _ & Hpre5);
      [by unfold s4; simpl; rewrite Hhead3 ..|].
    destruct Hpre5 as (_ & Hpack5 & Hh5 & Hstash5 & Hroot5 & Hlive5 & Hch5).
    unfold resetChanges.
    destruct (decide (length selectedItems = 0)) as [?|_]; [done|].
    unfold sendChangeMessage. run_unfold. rewrite Hrun5. simpl.
    assert (Hall5 : store s5 !! d = Some all).
    { rewrite Hst5. unfold s4. simpl. by rewrite Hst3, lookup_insert_ne. }
    rewrite Hall5. simpl.
    unfold s4 in *. simpl in Hst5, Hpack5, Hh5, Hstash5, Hroot5, Hch5.
    destruct (selectChanges (items all) selectedItems []) as [chosen|]; simpl;
      (eexists true, _; split; [reflexivity|]; simpl;
       split; [by rewrite Hst5|]; do 3 (split; [congruence|]);
       exists p, (items r'), d, all;
       rewrite Hst5, Hst3, lookup_insert_eq, lookup_insert_ne by done;
       split; [done|]; split; [congruence|];
       split; [by rewrite Hstash5, Hstash3, Hstash2|];
       split; [by rewrite Hch5, Hch3, Hch2, Hh5, Hhead3, Hh2|];
       do 4 (split; [done|]); split; [by apply Hb | done]).
Qed.

(** *** quickAmendItem *)

Lemma Pack_store_all_first (its : list RevisionItem) (pk : Pack) (x : Payload) :
  entries pk !! payloadHash x = None →
  (∃ i, i ∈ its ∧ payload i = x) →
  (∀ i, i ∈ its → payloadHash (payload i) = payloadHash x → payload i = x) →
  entries (foldl (λ acc i, Pack_store (payload i) acc) pk its) !! payloadHash x = Some x.
Proof.
  revert pk. induction its as [|i its IH]; intros pk Hnone (j & Hj & Hjx) Hsame.
  { by apply elem_of_nil in Hj. }
  simpl. destruct (decide (payloadHash (payload i) = payloadHash x)) as [Heq|Hne].
  - assert (Hi : payload i = x) by (apply Hsame; [apply list_elem_of_here | done]).
    eapply lookup_weaken; [|apply Pack_store_all_entries].
    unfold Pack_store. rewrite Hi, Hnone. simpl. apply lookup_insert_eq.
  - apply IH.
    + unfold Pack_store. destruct (entries pk !! payloadHash (payload i)); [done|].
      simpl. by rewrite lookup_insert_ne.
    + apply elem_of_cons in Hj as [->|Hj]; [congruence | eauto].
    + intros k Hk. apply Hsame. by apply list_elem_of_further.
Qed.

(** X14: [quickAmendItem] rewrites the heading revision in place: the record of
    the target replaces the one the revision had for it, the id, the message
    and the children stay, and no revision is created or attached.  The head
    stays on the revision, with a valid index, and one change message is
    sent.  The payloads of the items of the amended revision are pushed into
    the pack, which is then flushed, whether the write went through not being
    looked at: no entry is lost; and the snapshot itself is what the pack
    holds under its hash when no entry was there under that hash and no other
    item of the revision has a different payload with that hash. *)
Theorem quickAmendItem_outcome (target : Uuid) (snapshot : Payload) (heading : Ptr)
    (hr : Revision) (s : VCState) :
  headingRevision (head s) = Some heading →
  store s !! heading = Some hr →
  ∃ s', quickAmendItem target snapshot s = Some (tt, s') ∧
        store s' = <[heading := mkRevision (uuid hr) (message hr)
                       (filter (λ i, targetId i ≠ target) (items hr)
                          ++ [mkItem target Added snapshot])
                       (children hr)]> (store s) ∧
        headingRevision (head s') = Some heading ∧ indexValid (head s') = true ∧
        changes s' = changes s ++ [Some heading] ∧
        pack s' = (Pack_flush (foldl (λ acc i, Pack_store (payload i) acc) (pack s)
                                 (filter (λ i, targetId i ≠ target) (items hr)
                                    ++ [mkItem target Added snapshot]))).2 ∧
        entries (pack s) ⊆ entries (pack s') ∧
        (entries (pack s) !! payloadHash snapshot = None →
         (∀ i, i ∈ items hr → targetId i ≠ target →
               payloadHash (payload i) = payloadHash snapshot → payload i = snapshot) →
         entries (pack s') !! payloadHash snapshot = Some snapshot) ∧
        stashes s' = stashes s ∧ rootRevision s' = rootRevision s ∧ live s' = live s.
Proof.
  intros Hh Hhr.
  unfold quickAmendItem, head_heading, Revision_addItem, Revision_update,
    head_moveTo, Revision_flush, pack_flush, sendChangeMessage.
  run_unfold. rewrite Hh. simpl. rewrite Hhr. simpl. rewrite Hh. simpl.
  rewrite lookup_insert_eq. simpl.
  eexists. split; [reflexivity|]. simpl. do 5 (split; [done|]).
  rewrite Pack_flush_entries.
  split; [apply Pack_store_all_entries|]. split; [|done].
  intros Hnone Hsame. apply Pack_store_all_first; [done| |].
  - exists (mkItem target Added snapshot). split; [|done].
    apply elem_of_app. right. by apply list_elem_of_singleton.
  - intros i Hi Hhash. apply elem_of_app in Hi as [Hi|Hi].
    + apply list_elem_of_filter in Hi as [Ht Hi]. by apply Hsame.
    + by apply list_elem_of_singleton in Hi as ->.
Qed.

(** X15: [commit] checks the heading revision for null; [quickAmendItem] and
    [serialize] read it unchecked.  With an unbound head [commit] returns
    false and changes nothing that existed, whatever is selected, while
    [quickAmendItem] and [serialize] call a method through the null
    pointer. *)
Theorem unbound_head (selectedItems : list Z) (msg : string) (target : Uuid)
    (snapshot : Payload) (fuel : nat) (s : VCState) :
  headingRevision (head s) = None →
  diffCached s →
  quickAmendItem target snapshot s = None ∧
  serialize fuel s = None ∧
  ∃ s', commit selectedItems msg s = Some (false, s') ∧ preserves s s'.
Proof.
  intros Hh Hc. split.
  { unfold quickAmendItem, head_heading. run_unfold. by rewrite Hh. }
  split; [unfold serialize; by rewrite Hh|].
  unfold commit.
  destruct (decide (length selectedItems = 0)) as [Hlen|Hlen].
  { exists s. split; [done|]. apply preserves_refl. }
  destruct (Revision_new_run msg s) as (p & s1 & Hnew & Hfresh & Hst1 & Hhead1 & Hpre1).
  rewrite (bind_run _ _ _ _ _ Hnew).
  assert (Hc1 : diffCached s1).
  { intros d Hd. rewrite Hhead1 in Hd. destruct (Hc d Hd) as [x Hx].
    exists x. by eapply lookup_weaken, Hpre1. }
  destruct (head_getDiff_run s1 Hc1)
    as (d & s2 & Hdiff & [all Hall] & Hd2 & _ & Hpre2).
  rewrite (bind_run _ _ _ _ _ Hdiff).
  pose proof (preserves_trans _ _ _ Hpre1 Hpre2)
    as (Hsub & Hpack2 & Hh2 & Hstash2 & Hroot2 & Hlive2 & Hch2).
  assert (Hp2 : store s2 !! p = Some (mkRevision (freshUuid p) msg [] [])).
  { eapply lookup_weaken; [|apply Hpre2]. rewrite Hst1. apply lookup_insert_eq. }
  unfold deref at 1. rewrite (bind_run _ (λ all, _) s2 s2 all)
    by (unfold liftOption; by rewrite Hall).
  destruct (commitSelect_run p (items all) selectedItems s2 _ Hp2)
    as (b & s3 & r' & Hrun & Hst3 & _ & _ & _ & _ & _ & _ &
        Hpack3 & Hhead3 & Hstash3 & Hroot3 & Hlive3 & Hch3).
  rewrite (bind_run _ _ _ _ _ Hrun).
  assert (Hpre3 : preserves s s3).
  { repeat split; try congruence.
    rewrite Hst3. apply map_subseteq_spec. intros q x Hq.
    rewrite lookup_insert_ne by congruence. by eapply lookup_weaken. }
  exists s3. split; [|done]. destruct b; simpl; [|done].
  unfold head_getHeadingRevision. run_unfold. by rewrite Hhead3, Hh2, Hh.
Qed.

(** *** serialize, deserialize and reset *)

Lemma deserialize_serialized_hash (fuel : nat) (s s0 : VCState) (tree : VersionControlNode) :
  serialize fuel s = Some tree →
  is_Some (store s0 !! rootRevision s0) →
  ∃ s', deserialize fuel (VersionControlTree tree) s0 = Some (tt, s') ∧
        calculateHash fuel s' = calculateHash fuel s ∧
        is_Some (calculateHash fuel s) ∧
        entries (pack s') = entries (pack s) ∧ dirty (pack s') = ∅ ∧
        rootRevision s' = rootRevision s0 ∧ live s' = live s0 ∧
        changes s' = changes s0.
Proof.
  intros Hser Hroot0. unfold serialize in Hser.
  destruct (headingRevision (head s)) as [heading|] eqn:Hheading; [|done].
  simpl in Hser. destruct (store s !! heading) as [hr|] eqn:Hhr; [|done].
  simpl in Hser.
  destruct (Revision_serialize fuel (store s) (rootRevision s)) as [rootNode|] eqn:Hnode;
    [|done].
  simpl in Hser. destruct (Stashes_serialize _ _ _) as [stashNode|]; [|done].
  injection Hser as <-.
  pose proof (Revision_serialize_represents _ _ _ _ Hnode) as Hrep.
  pose proof (Revision_serialize_treeWithin _ _ _ _ Hnode) as Htree.
  destruct (reset_run s0 Hroot0) as (sa & Hreset & Hroota & Hra & Hla & Hca).
  destruct (Revision_deserialize_run (rootRevision s0) rootNode sa Hroota)
    as (sb & Hdes & Hrepb & _ & _ & _ & _ & _ & Hrb & Hlb & Hcb).
  destruct (Stashes_deserialize_run stashNode sb)
    as (sc & Hst & Hsubc & _ & _ & Hrc & Hlc & Hcc).
  set (sd := set_head (Head_deserialize (head s))
               (set_pack (λ _, Pack_deserialize (Pack_serialize (pack s))) sc)).
  destruct (getRevisionById_returns (store s) (uuid hr) fuel _ Htree s)
    as (q1 & s1 & Hfind & _); [done|].
  destruct (getRevisionById_sameSearch (store s) (store sd) (uuid hr) fuel rootNode
              (rootRevision s) (rootRevision s0) Hrep
              (represents_weaken _ _ _ _ _ Hrepb Hsubc) s sd)
    as [[E1 _]|(empty & _ & Ho2)]; [done | done | congruence |].
  destruct (getRevisionById fuel (rootRevision s0) (uuid hr) sd) as [[q2 se]|] eqn:Hfind2;
    [|done].
  destruct Ho2 as (Hpre2 & Hh2 & r2 & Hr2 & He2 & _).
  assert (Hrun : deserialize fuel (VersionControlTree
                   (mkVCNode (uuid hr) rootNode stashNode (Pack_serialize (pack s)) (head s))) s0
                 = Some (tt, if empty then se else set_head (Head_pointTo q2) se)).
  { unfold deserialize. rewrite (bind_run _ _ _ _ _ Hreset). simpl.
    rewrite (bind_run _ _ _ _ _ (get_run sa)), Hra.
    rewrite (bind_run _ _ _ _ _ Hdes), (bind_run _ _ _ _ _ Hst).
    rewrite !(bind_run _ _ _ _ _ (modify_run _ _)). fold sd.
    rewrite (bind_run _ _ _ _ _ Hfind2).
    rewrite (bind_run _ _ _ _ _ (isEmpty_run _ _ _ Hr2)), He2. by destruct empty. }
  eexists. split; [exact Hrun|].
  destruct Hpre2 as (Hsub2 & Hpack2 & _ & _ & Hroot2 & Hlive2 & Hch2).
  assert (Hhash : calculateHash fuel se = calculateHash fuel s).
  { unfold calculateHash. rewrite Hroot2. simpl. rewrite Hrc, Hrb, Hra.
    by rewrite (recursiveGetHashes_represents (store se) (store s) fuel rootNode
                  (rootRevision s0) (rootRevision s)
                  (represents_weaken _ _ _ _ _
                     (represents_weaken _ _ _ _ _ Hrepb Hsubc) Hsub2) Hrep). }
  assert (Htotal : is_Some (calculateHash fuel s)).
  { unfold calculateHash. by destruct (recursiveGetHashes_total _ _ _ Htree) as [ids ->]. }
  destruct empty; simpl; rewrite ?Hpack2, ?Hroot2, ?Hlive2, ?Hch2; simpl;
    (split; [exact Hhash|]); repeat split; try done; congruence.
Qed.

(** X16: a state whose head is on an existing revision, and whose history and
    stashes are trees, is written by [serialize]; whether or not the id of
    the heading revision is found again, what it wrote is loaded by
    [deserialize], into any [VersionControl] object, as a history with the
    same hash and a pack with the same entries, none of them dirty.  The
    object keeps its root revision object; loading changes no live item and
    sends no change message. *)
Theorem serialize_deserialize_hash (fuel : nat) (s s0 : VCState) (heading : Ptr)
    (hr : Revision) :
  headingRevision (head s) = Some heading →
  store s !! heading = Some hr →
  treeWithin (store s) fuel (rootRevision s) →
  Forall (treeWithin (store s) fuel) (userStashes (stashes s)) →
  (∀ q, quickStash (stashes s) = Some q → treeWithin (store s) fuel q) →
  is_Some (store s0 !! rootRevision s0) →
  ∃ tree s',
    serialize fuel s = Some tree ∧
    deserialize fuel (VersionControlTree tree) s0 = Some (tt, s') ∧
    calculateHash fuel s' = calculateHash fuel s ∧
    is_Some (calculateHash fuel s) ∧
    entries (pack s') = entries (pack s) ∧ dirty (pack s') = ∅ ∧
    rootRevision s' = rootRevision s0 ∧ live s' = live s0 ∧
    changes s' = changes s0.
Proof.
  intros Hh Hhr Htree Hnamed Hquick Hroot0.
  destruct (serialize_returns fuel s heading hr Hh Hhr Htree Hnamed Hquick)
    as (tree & Hser & _).
  destruct (deserialize_serialized_hash fuel s s0 tree Hser Hroot0) as (s' & H).
  by exists tree, s'.
Qed.

(** X17: loading a tree that is not a version-control node and holds none is
    [reset] and nothing more: the root revision object stays, emptied of its
    items and children, so that the history shrinks to one revision; no
    stash and no pack entry is left, and no change message is sent. *)
Theorem deserialize_no_node (fuel : nat) (tree : ValueTree) (r : Revision) (s : VCState) :
  versionControlRoot tree = None →
  store s !! rootRevision s = Some r →
  ∃ s', deserialize fuel tree s = Some (tt, s') ∧ reset s = Some (tt, s') ∧
        store s' = <[rootRevision s := mkRevision (uuid r) (message r) [] []]> (store s) ∧
        rootRevision s' = rootRevision s ∧
        head s' = Head_reset (head s) ∧
        stashes s' = mkStashes [] None ∧ pack s' = mkPack ∅ ∅ ∧
        live s' = live s ∧ changes s' = changes s.
Proof.
  intros Htree Hr.
  assert (Hreset : ∃ s', reset s = Some (tt, s') ∧
            store s' = <[rootRevision s := mkRevision (uuid r) (message r) [] []]> (store s) ∧
            rootRevision s' = rootRevision s ∧ head s' = Head_reset (head s) ∧
            stashes s' = mkStashes [] None ∧ pack s' = mkPack ∅ ∅ ∧
            live s' = live s ∧ changes s' = changes s).
  { unfold reset, Revision_reset, Revision_update. run_unfold. rewrite Hr. simpl.
    eexists. split; [reflexivity|]. by simpl. }
  destruct Hreset as (s' & Hrun & Hst & Hroot & Hrest).
  exists s'. split.
  { unfold deserialize. rewrite (bind_run _ _ _ _ _ Hrun). by rewrite Htree. }
  split; [done|]. split; [done|]. split; [done|]. exact Hrest.
Qed.


End VersionControl.

(** ** The statements at concrete projects *)

Lemma Sample_isEmpty_sentinel (u : Uuid) : Sample.isEmpty (emptyRevision u) = true.
Proof. reflexivity. Qed.

Lemma Sample_history_swapped :
  store (Sample.history 3 2)
  = <[1%positive := mkRevision "root" "first" [] [3%positive; 2%positive]]>
      (store (Sample.history 2 3)).
Proof. vm_compute. reflexivity. Qed.

Lemma calculateHash_child_order_witness :
  childOrderOnly (store (Sample.history 2 3)) (store (Sample.history 3 2)) ∧
  calculateHash Sample.stringHash Sample.combineHash 2 (Sample.history 3 2)
  = calculateHash Sample.stringHash Sample.combineHash 2 (Sample.history 2 3) ∧
  is_Some (calculateHash Sample.stringHash Sample.combineHash 2 (Sample.history 2 3)).
Proof.
  assert (H : childOrderOnly (store (Sample.history 2 3)) (store (Sample.history 3 2))).
  { rewrite Sample_history_swapped.
    apply (childOrderOnly_permute _ 1%positive
             (mkRevision "root" "first" [] [2%positive; 3%positive])).
    - vm_compute. reflexivity.
    - apply perm_swap. }
  destruct (calculateHash_child_order Sample.stringHash Sample.combineHash 2
              (Sample.history 2 3) (Sample.history 3 2) H eq_refl) as [Heq Hsome].
  split; [exact H|]. split; [exact Heq|]. apply Hsome.
  vm_compute. eexists. split; [reflexivity|].
  repeat constructor; eexists; (split; [reflexivity | constructor]).
Defined.


Lemma moveHead_checkout_spec_witness :
  headingRevision (Head_moveTo Sample.ancestors (store (Sample.history 2 3)) 3
                     (head (Sample.history 2 3))) = Some 3%positive ∧
  (∃ s', moveHead Sample.isEmpty Sample.ancestors 3 (Sample.history 2 3) = Some (tt, s') ∧
         changes s' = [Some 3%positive]) ∧
  (∃ s', checkout Sample.isEmpty Sample.ancestors Sample.itemApply 3 (Sample.history 2 3)
         = Some (tt, s') ∧ live s' !! "a" = Some "3").
Proof.
  pose proof (moveHead_checkout_spec Sample.isEmpty Sample.ancestors Sample.itemApply 3
                (mkRevision "right" "edit b" [mkItem "b" Added "2"; mkItem "a" Changed "3"] [])
                (Sample.history 2 3)) as H.
  assert (Hp : store (Sample.history 2 3) !! 3%positive
               = Some (mkRevision "right" "edit b"
                         [mkItem "b" Added "2"; mkItem "a" Changed "3"] []))
    by (vm_compute; reflexivity).
  specialize (H Hp).
  change (Sample.isEmpty _) with false in H. cbv zeta in H.
  destruct H as (Hh & Hm & Hc).
  split; [exact Hh|]. split.
  - eexists. split; [exact Hm | reflexivity].
  - eexists. split; [exact Hc | vm_compute; reflexivity].
Defined.

Lemma Sample_history_ids (q : Ptr) (r : Revision) :
  reachable (store (Sample.history 2 3)) 1 q →
  store (Sample.history 2 3) !! q = Some r →
  uuid r ∈ ["root"; "left"; "right"].
Proof.
  intros Hreach Hq.
  assert (Hcases : q = 1%positive ∨ q = 2%positive ∨ q = 3%positive).
  { inversion Hreach as [|? c ? r1 Hr1 Hc Hrest]; subst; [by left|].
    vm_compute in Hr1. injection Hr1 as <-. simpl in Hc.
    apply elem_of_cons in Hc as [->|Hc]; [|apply elem_of_cons in Hc as [->|Hc]].
    - inversion Hrest as [|? c ? r2 Hr2 Hc2 _]; subst; [by right; left|].
      vm_compute in Hr2. injection Hr2 as <-. by apply elem_of_nil in Hc2.
    - inversion Hrest as [|? c ? r2 Hr2 Hc2 _]; subst; [by right; right|].
      vm_compute in Hr2. injection Hr2 as <-. by apply elem_of_nil in Hc2.
    - by apply elem_of_nil in Hc. }
  destruct Hcases as [->|[->| ->]]; vm_compute in Hq; injection Hq as <-; simpl;
    set_solver.
Qed.

Lemma getRevisionById_absent_witness :
  ∃ p s', getRevisionById Sample.isEmpty Sample.freshUuid 2 1 "unknown" (Sample.history 2 3)
          = Some (p, s') ∧
          newSentinel (Sample.history 2 3) p s' ∧
          isEmpty Sample.isEmpty p s' = Some (true, s').
Proof.
  apply (getRevisionById_absent Sample.isEmpty Sample.freshUuid Sample_isEmpty_sentinel).
  - vm_compute. eexists. split; [reflexivity|].
    repeat constructor; eexists; (split; [reflexivity | constructor]).
  - intros q r Hreach Hq Hid.
    pose proof (Sample_history_ids q r Hreach Hq) as Hin. rewrite Hid in Hin.
    apply list_elem_of_In in Hin. simpl in Hin. intuition discriminate.
Defined.

Lemma applyStashNamed_unknown_witness :
  ∃ s', applyStashNamed Sample.isEmpty Sample.freshUuid Sample.ancestors Sample.itemApply
          "other" false Sample.shelved = Some (false, s') ∧
        head s' = head Sample.shelved ∧ stashes s' = stashes Sample.shelved ∧
        changes s' = [].
Proof.
  destruct (applyStashNamed_unknown Sample.isEmpty Sample.freshUuid Sample.ancestors
              Sample.itemApply Sample_isEmpty_sentinel "other" false Sample.shelved)
    as (s' & Hrun & Hhead & Hstashes & Hchanges & _).
  - intros p r Hp Hr. simpl in Hp. apply list_elem_of_singleton in Hp as ->.
    vm_compute in Hr. injection Hr as <-. simpl. discriminate.
  - exists s'. split; [exact Hrun|]. split; [exact Hhead|].
    split; [exact Hstashes | exact Hchanges].
Defined.




Lemma commit_negative_index_witness :
  ∃ p s', commit Sample.freshUuid Sample.payloadHash Sample.ancestors Sample.itemDiff Sample.persists
            [(-1)%Z] "nothing selected"
            (VersionControl_new Sample.freshUuid Sample.ancestors Sample.document)
          = Some (true, s') ∧
          children <$> store s' !! 1%positive = Some [p] ∧
          headingRevision (head s') = Some p ∧
          changes s' = [Some p].
Proof.
  destruct (commit_negative_index Sample.freshUuid Sample.payloadHash Sample.ancestors
              Sample.itemDiff Sample.persists "nothing selected" 1
              (mkRevision "rev-1" "defaults::newproject::firstcommit" [] [])
              (VersionControl_new Sample.freshUuid Sample.ancestors Sample.document))
    as (p & s' & Hrun & _ & Hheading & _ & Hhead & Hch).
  - intros d Hd. simpl in Hd. discriminate.
  - reflexivity.
  - vm_compute. reflexivity.
  - exists p, s'. split; [exact Hrun|]. split; [by rewrite Hheading|].
    split; [exact Hhead | exact Hch].
Defined.

(** C6 as stated fails: with an empty target id the call returns normally,
    with nothing to tell it from a call that had nothing to do, and leaves
    the project as it was. *)
Lemma appendSubtree_empty_id_silent :
  outcome (appendSubtree Sample.isEmpty Sample.freshUuid 2 2 "") Sample.shelved
  = Some NoValue ∧
  appendSubtree Sample.isEmpty Sample.freshUuid 2 2 "" Sample.shelved
  = Some (tt, Sample.shelved).
Proof. split; reflexivity. Qed.

(** C8 as stated fails: [moveHead] and [checkout] are [void] methods; called
    with an empty revision, here the root of a new project, they return, and
    there is no [false] they return. *)
Lemma moveHead_checkout_return_nothing :
  outcome (isEmpty Sample.isEmpty 1)
          (VersionControl_new Sample.freshUuid Sample.ancestors Sample.document)
  = Some (BoolValue true) ∧
  outcome (moveHead Sample.isEmpty Sample.ancestors 1)
          (VersionControl_new Sample.freshUuid Sample.ancestors Sample.document)
  = Some NoValue ∧
  outcome (checkout Sample.isEmpty Sample.ancestors Sample.itemApply 1)
          (VersionControl_new Sample.freshUuid Sample.ancestors Sample.document)
  = Some NoValue ∧
  Some NoValue ≠ Some (BoolValue false).
Proof. repeat split; try (vm_compute; reflexivity). discriminate. Qed.

Lemma Sample_isEmpty_shape (r r' : Revision) :
  uuid r = uuid r' → message r = message r' → items r = items r' →
  length (children r) = length (children r') →
  Sample.isEmpty r = Sample.isEmpty r'.
Proof.
  intros _ _ Hitems Hlen. unfold Sample.isEmpty. rewrite Hitems.
  destruct (children r), (children r'); try discriminate; [done|].
  rewrite !bool_decide_eq_false_2; [done | | ]; by intros [_ ?].
Qed.

Lemma serialize_deserialize_found_witness :
  ∃ tree s' q r,
    serialize 2 (Sample.history 2 3) = Some tree ∧
    deserialize Sample.isEmpty Sample.freshUuid Sample.Head_reset Sample.Head_deserialize
      2 (VersionControlTree tree)
      (VersionControl_new Sample.freshUuid Sample.ancestors ∅) = Some (tt, s') ∧
    calculateHash Sample.stringHash Sample.combineHash 2 s'
    = calculateHash Sample.stringHash Sample.combineHash 2 (Sample.history 2 3) ∧
    headingRevision (head s') = Some q ∧ store s' !! q = Some r ∧
    uuid r = "root" ∧ indexValid (head s') = false.
Proof.
  destruct (serialize_deserialize_found Sample.isEmpty Sample.freshUuid
              Sample.stringHash Sample.combineHash Sample.Head_reset
              Sample.Head_deserialize Sample_isEmpty_sentinel Sample_isEmpty_shape
              2 (Sample.history 2 3)
              (VersionControl_new Sample.freshUuid Sample.ancestors ∅) 1
              (mkRevision "root" "first" [] [2%positive; 3%positive]))
    as (tree & s' & q & r & Hser & Hrun & Hhash & _ & Hq & Hr & Hu & Hvalid).
  - reflexivity.
  - vm_compute. reflexivity.
  - vm_compute. eexists. split; [reflexivity|].
    repeat constructor; eexists; (split; [reflexivity | constructor]).
  - constructor.
  - intros q Hq. simpl in Hq. discriminate.
  - eexists _, _, _. split; [reflexivity|]. split; reflexivity.
  - vm_compute. eauto.
  - exists tree, s', q, r. split; [exact Hser|]. split; [exact Hrun|].
    split; [exact Hhash|]. split; [exact Hq|]. split; [exact Hr|].
    split; [exact Hu | exact Hvalid].
Defined.

(** C7 as stated fails: with the head on a revision outside the tree, here
    a stash, the lookup on load finds nothing and the head is not pointed;
    loaded into a new [VersionControl], the head is on the root. *)
Lemma serialize_deserialize_head_on_stash :
  ∃ tree s',
    moveHead Sample.isEmpty Sample.ancestors 2 Sample.shelved = Some (tt, Sample.onStash) ∧
    serialize 2 Sample.onStash = Some tree ∧
    deserialize Sample.isEmpty Sample.freshUuid Sample.Head_reset Sample.Head_deserialize
      2 (VersionControlTree tree)
      (VersionControl_new Sample.freshUuid Sample.ancestors ∅) = Some (tt, s') ∧
    (heading ← headingRevision (head Sample.onStash);
     uuid <$> store Sample.onStash !! heading) = Some "stash" ∧
    (heading ← headingRevision (head s'); uuid <$> store s' !! heading) = Some "root".
Proof.
  eexists _, _. split; [vm_compute; reflexivity|]. split; [vm_compute; reflexivity|].
  split; [vm_compute; reflexivity|]. split; vm_compute; reflexivity.
Qed.


(** ** The further properties at concrete projects *)

Lemma Sample_history_tree : treeWithin (store (Sample.history 2 3)) 2 1.
Proof.
  vm_compute. eexists. split; [reflexivity|].
  repeat constructor; eexists; (split; [reflexivity | constructor]).
Qed.

Lemma Sample_history_reachable (q : Ptr) :
  reachable (store (Sample.history 2 3)) 1 q →
  q = 1%positive ∨ q = 2%positive ∨ q = 3%positive.
Proof.
  intros Hreach.
  inversion Hreach as [|? c ? r1 Hr1 Hc Hrest]; subst; [by left|].
  vm_compute in Hr1. injection Hr1 as <-. simpl in Hc.
  apply elem_of_cons in Hc as [->|Hc]; [|apply elem_of_cons in Hc as [->|Hc]].
  - inversion Hrest as [|? c ? r2 Hr2 Hc2 _]; subst; [by right; left|].
    vm_compute in Hr2. injection Hr2 as <-. by apply elem_of_nil in Hc2.
  - inversion Hrest as [|? c ? r2 Hr2 Hc2 _]; subst; [by right; right|].
    vm_compute in Hr2. injection Hr2 as <-. by apply elem_of_nil in Hc2.
  - by apply elem_of_nil in Hc.
Qed.

Lemma Sample_history_right : reachable (store (Sample.history 2 3)) 1 3.
Proof.
  eapply (reachable_below _ 1 3 3); [vm_compute; reflexivity | | constructor].
  simpl. apply list_elem_of_further, list_elem_of_here.
Qed.

Lemma Sample_history_right_only (q : Ptr) (r : Revision) :
  reachable (store (Sample.history 2 3)) 1 q →
  store (Sample.history 2 3) !! q = Some r →
  uuid r = "right" → q = 3%positive.
Proof.
  intros Hreach Hq Hid.
  destruct (Sample_history_reachable q Hreach) as [->|[->| ->]];
    vm_compute in Hq; injection Hq as <-; first [discriminate Hid | reflexivity].
Qed.

Lemma Sample_history_no_such_id (q : Ptr) (r : Revision) :
  reachable (store (Sample.history 2 3)) 1 q →
  store (Sample.history 2 3) !! q = Some r →
  uuid r = "nope" → Sample.isEmpty r = true.
Proof.
  intros Hreach Hq Hid.
  destruct (Sample_history_reachable q Hreach) as [->|[->| ->]];
    vm_compute in Hq; injection Hq as <-; discriminate Hid.
Qed.

Lemma Sample_withPlaceholder_reachable (q : Ptr) :
  reachable (store Sample.withPlaceholder) 1 q → q = 1%positive ∨ q = 2%positive.
Proof.
  intros Hreach.
  inversion Hreach as [|? c ? r1 Hr1 Hc Hrest]; subst; [by left|].
  vm_compute in Hr1. injection Hr1 as <-. simpl in Hc.
  apply list_elem_of_singleton in Hc as ->.
  inversion Hrest as [|? c ? r2 Hr2 Hc2 _]; subst; [by right|].
  vm_compute in Hr2. injection Hr2 as <-. by apply elem_of_nil in Hc2.
Qed.

Lemma getRevisionById_outcome_witness :
  ∃ q s', getRevisionById Sample.isEmpty Sample.freshUuid 2 1 "right" (Sample.history 2 3)
          = Some (q, s') ∧
          preserves (Sample.history 2 3) s' ∧ head s' = head (Sample.history 2 3).
Proof.
  destruct (getRevisionById_outcome Sample.isEmpty Sample.freshUuid Sample_isEmpty_sentinel
              2 1 "right" (Sample.history 2 3) Sample_history_tree)
    as (q & s' & Hrun & Hpre & Hhead & _).
  exists q, s'. split; [exact Hrun|]. split; [exact Hpre | exact Hhead].
Defined.

Lemma getRevisionById_skips_empty_witness :
  ∃ p s', getRevisionById Sample.isEmpty Sample.freshUuid 2 1 "later" Sample.withPlaceholder
          = Some (p, s') ∧
          newSentinel Sample.withPlaceholder p s'.
Proof.
  apply (getRevisionById_skips_empty Sample.isEmpty Sample.freshUuid Sample_isEmpty_sentinel
           2 1 (mkRevision "root" "first" [mkItem "a" Added "1"] [2%positive])).
  - vm_compute. eexists. split; [reflexivity|].
    repeat constructor; eexists; (split; [reflexivity | constructor]).
  - vm_compute. reflexivity.
  - discriminate.
  - intros q r Hreach Hq Hid.
    destruct (Sample_withPlaceholder_reachable q Hreach) as [->| ->];
      vm_compute in Hq; injection Hq as <-; first [discriminate Hid | reflexivity].
Defined.

Lemma getRevisionById_found_witness :
  ∃ s', getRevisionById Sample.isEmpty Sample.freshUuid 2 1 "right" (Sample.history 2 3)
        = Some (3%positive, s').
Proof.
  destruct (getRevisionById_found Sample.isEmpty Sample.freshUuid Sample_isEmpty_sentinel
              2 1 3 (mkRevision "right" "edit b"
                       [mkItem "b" Added "2"; mkItem "a" Changed "3"] [])
              (Sample.history 2 3) Sample_history_tree Sample_history_right)
    as (s' & Hrun & _).
  - vm_compute. reflexivity.
  - reflexivity.
  - exact Sample_history_right_only.
  - exists s'. exact Hrun.
Defined.

Lemma appendSubtree_unknown_id_witness :
  ∃ s', appendSubtree Sample.isEmpty Sample.freshUuid 2 3 "nope" (Sample.history 2 3)
        = Some (tt, s') ∧
        preserves (Sample.history 2 3) s' ∧ changes s' = [].
Proof.
  destruct (appendSubtree_unknown_id Sample.isEmpty Sample.freshUuid Sample_isEmpty_sentinel
              2 3 "nope" (Sample.history 2 3) Sample_history_tree Sample_history_no_such_id)
    as (s' & Hrun & Hpre & _).
  exists s'. split; [exact Hrun|]. split; [exact Hpre|]. apply Hpre.
Defined.

Lemma appendSubtree_attaches_witness :
  ∃ s', appendSubtree Sample.isEmpty Sample.freshUuid 2 2 "right" (Sample.history 2 3)
        = Some (tt, s') ∧
        children <$> store s' !! 3%positive = Some [2%positive] ∧
        changes s' = [Some 1%positive].
Proof.
  destruct (appendSubtree_attaches Sample.isEmpty Sample.freshUuid Sample_isEmpty_sentinel
              2 2 3 (mkRevision "right" "edit b"
                       [mkItem "b" Added "2"; mkItem "a" Changed "3"] [])
              (Sample.history 2 3) Sample_history_tree Sample_history_right)
    as (s' & Hrun & Hh & _ & _ & _ & _ & _ & _ & Hch).
  - vm_compute. reflexivity.
  - reflexivity.
  - discriminate.
  - exact Sample_history_right_only.
  - exists s'. split; [exact Hrun|]. split; [by rewrite Hh | exact Hch].
Defined.

Lemma appendSubtree_below_itself_witness :
  ∃ s', appendSubtree Sample.isEmpty Sample.freshUuid 2 3 "right" (Sample.history 2 3)
        = Some (tt, s') ∧
        is_Some (calculateHash Sample.stringHash Sample.combineHash 2 (Sample.history 2 3)) ∧
        ∀ fuel, calculateHash Sample.stringHash Sample.combineHash fuel s' = None.
Proof.
  apply (appendSubtree_below_itself Sample.isEmpty Sample.freshUuid Sample.stringHash
           Sample.combineHash Sample_isEmpty_sentinel 2 3
           (mkRevision "right" "edit b" [mkItem "b" Added "2"; mkItem "a" Changed "3"] [])
           (Sample.history 2 3) Sample_history_tree Sample_history_right).
  - vm_compute. reflexivity.
  - reflexivity.
  - discriminate.
  - exact Sample_history_right_only.
Defined.

Lemma calculateHash_tree_only_witness :
  calculateHash Sample.stringHash Sample.combineHash 2 Sample.unbound
  = calculateHash Sample.stringHash Sample.combineHash 2 (Sample.history 2 3).
Proof.
  apply calculateHash_tree_only; [reflexivity|]. intros q _. reflexivity.
Defined.


Lemma quickStash_one_refuses_witness :
  hasQuickStash Sample.stashesHasQuickStash Sample.stashedProject
  = Some (true, Sample.stashedProject) ∧
  quickStashAll Sample.freshUuid Sample.ancestors Sample.itemDiff Sample.itemApply
    Sample.stashesHasQuickStash Sample.stashedProject
  = Some (false, Sample.stashedProject) ∧
  ∃ s', applyQuickStash Sample.freshUuid Sample.itemApply Sample.stashesHasQuickStash
          Sample.stashedProject = Some (true, s') ∧
        changes s' = [Some 1%positive].
Proof.
  destruct (quickStash_one_refuses Sample.freshUuid Sample.ancestors Sample.itemDiff
              Sample.itemApply Sample.stashesHasQuickStash Sample.stashedProject)
    as (present & Hhas & H).
  - intros d Hd. simpl in Hd. discriminate.
  - intros q Hq. simpl in Hq. injection Hq as <-. vm_compute. eauto.
  - assert (present = true) as -> by (vm_compute in Hhas; by injection Hhas).
    destruct H as (Hall & s' & Hrun & Hch & _).
    split; [exact Hhas|]. split; [exact Hall|].
    exists s'. split; [exact Hrun | exact Hch].
Defined.

Lemma commit_outcome_witness :
  (∃ p s', commit Sample.freshUuid Sample.payloadHash Sample.ancestors Sample.itemDiff
             Sample.persists [0%Z] "first edit"
             (VersionControl_new Sample.freshUuid Sample.ancestors Sample.document)
           = Some (true, s') ∧
           children <$> store s' !! 1%positive = Some [p] ∧
           headingRevision (head s') = Some p ∧ indexValid (head s') = true ∧
           changes s' = [Some p] ∧ dirty (pack s') = ∅) ∧
  (∃ p s', commit Sample.freshUuid Sample.payloadHash Sample.ancestors Sample.itemDiff
             Sample.storageFull [0%Z] "first edit"
             (VersionControl_new Sample.freshUuid Sample.ancestors Sample.document)
           = Some (true, s') ∧
           headingRevision (head s') = Some p ∧
           changes s' = [Some p] ∧ size (dirty (pack s')) = 1).
Proof.
  split.
  - destruct (commit_outcome Sample.freshUuid Sample.payloadHash Sample.ancestors
                Sample.itemDiff Sample.persists [0%Z] "first edit" 1
                (mkRevision "rev-1" "defaults::newproject::firstcommit" [] [])
                (VersionControl_new Sample.freshUuid Sample.ancestors Sample.document))
      as (b & s' & Hrun & H).
    + intros d Hd. simpl in Hd. discriminate.
    + reflexivity.
    + vm_compute. reflexivity.
    + assert (b = true) as -> by (vm_compute in Hrun; by injection Hrun).
      destruct H as (p & its & d & all & _ & _ & Hheading & _ & Hh & Hv & Hch & Hpack & _).
      exists p, s'. split; [exact Hrun|]. split; [by rewrite Hheading|].
      split; [exact Hh|]. split; [exact Hv|]. split; [exact Hch|].
      rewrite Hpack. reflexivity.
  - destruct (commit_outcome Sample.freshUuid Sample.payloadHash Sample.ancestors
                Sample.itemDiff Sample.storageFull [0%Z] "first edit" 1
                (mkRevision "rev-1" "defaults::newproject::firstcommit" [] [])
                (VersionControl_new Sample.freshUuid Sample.ancestors Sample.document))
      as (b & s' & Hrun & H).
    + intros d Hd. simpl in Hd. discriminate.
    + reflexivity.
    + vm_compute. reflexivity.
    + assert (b = true) as -> by (vm_compute in Hrun; by injection Hrun).
      destruct H as (p & its & d & all & _ & _ & _ & _ & Hh & _ & Hch & _).
      exists p, s'. split; [exact Hrun|]. split; [exact Hh|]. split; [exact Hch|].
      pose proof Hrun as Hrun'. vm_compute in Hrun'. injection Hrun' as <-.
      vm_compute. reflexivity.
Defined.

Lemma resetChanges_send_nothing_witness :
  (∃ b s', resetChanges Sample.freshUuid Sample.ancestors Sample.itemDiff Sample.itemApply
             [0%Z] (VersionControl_new Sample.freshUuid Sample.ancestors Sample.document)
           = Some (b, s') ∧ changes s' = []) ∧
  (∃ s', resetAllChanges Sample.freshUuid Sample.ancestors Sample.itemDiff Sample.itemApply
           (VersionControl_new Sample.freshUuid Sample.ancestors Sample.document)
         = Some (true, s') ∧ changes s' = []).
Proof.
  destruct (resetChanges_send_nothing Sample.freshUuid Sample.ancestors Sample.itemDiff
              Sample.itemApply [0%Z]
              (VersionControl_new Sample.freshUuid Sample.ancestors Sample.document))
    as [(b & s1 & Hrun1 & _ & _ & _ & _ & _ & Hch1 & _)
        (s2 & Hrun2 & _ & _ & _ & _ & _ & Hch2)].
  - intros d Hd. simpl in Hd. discriminate.
  - split; [exists b, s1 | exists s2]; (split; [assumption|assumption]).
Defined.

Lemma resetChanges_whole_diff_witness :
  ∃ d s1 all,
    head_getDiff Sample.freshUuid Sample.ancestors Sample.itemDiff
      (VersionControl_new Sample.freshUuid Sample.ancestors Sample.document) = Some (d, s1) ∧
    store s1 !! d = Some all ∧
    length (items all) = 2 ∧
    resetChanges Sample.freshUuid Sample.ancestors Sample.itemDiff Sample.itemApply
      (Z.of_nat <$> seq 0 (length (items all)))
      (VersionControl_new Sample.freshUuid Sample.ancestors Sample.document)
    = resetAllChanges Sample.freshUuid Sample.ancestors Sample.itemDiff Sample.itemApply
        (VersionControl_new Sample.freshUuid Sample.ancestors Sample.document).
Proof.
  destruct (head_getDiff Sample.freshUuid Sample.ancestors Sample.itemDiff
              (VersionControl_new Sample.freshUuid Sample.ancestors Sample.document))
    as [[d s1]|] eqn:H1; [|vm_compute in H1; discriminate].
  destruct (store s1 !! d) as [all|] eqn:H2.
  2:{ vm_compute in H1. injection H1 as <- <-. vm_compute in H2. discriminate. }
  assert (H3 : length (items all) = 2).
  { pose proof H1 as H1'. pose proof H2 as H2'.
    vm_compute in H1'. injection H1' as <- <-.
    vm_compute in H2'. injection H2' as <-. reflexivity. }
  exists d, s1, all. split; [reflexivity|]. split; [exact H2|]. split; [exact H3|].
  apply (resetChanges_whole_diff Sample.freshUuid Sample.ancestors Sample.itemDiff
           Sample.itemApply _ s1 d all H1 H2).
  intros E. rewrite E in H3. discriminate.
Defined.

Lemma stash_outcome_witness :
  ∃ b s', stash Sample.freshUuid Sample.ancestors Sample.itemDiff Sample.itemApply
            [0%Z] "wip" true
            (VersionControl_new Sample.freshUuid Sample.ancestors Sample.document)
          = Some (b, s') ∧
          headingRevision (head s') = Some 1%positive ∧
          calculateHash Sample.stringHash Sample.combineHash 1 s'
          = calculateHash Sample.stringHash Sample.combineHash 1
              (VersionControl_new Sample.freshUuid Sample.ancestors Sample.document).
Proof.
  destruct (stash_outcome Sample.freshUuid Sample.stringHash Sample.combineHash
              Sample.ancestors Sample.itemDiff Sample.itemApply [0%Z] "wip" true
              (VersionControl_new Sample.freshUuid Sample.ancestors Sample.document))
    as (b & s' & Hrun & _ & _ & Hh & _ & Hhash & _).
  - intros d Hd. simpl in Hd. discriminate.
  - constructor; [apply Z.le_refl | constructor].
  - exists b, s'. split; [exact Hrun|]. split; [exact Hh|]. apply Hhash.
    vm_compute. eexists. split; [reflexivity | constructor].
Defined.

Lemma quickAmendItem_outcome_witness :
  ∃ s', quickAmendItem Sample.payloadHash Sample.ancestors Sample.persists "a" "9" Sample.stashedProject
        = Some (tt, s') ∧
        items <$> store s' !! 1%positive = Some [mkItem "a" Added "9"] ∧
        changes s' = [Some 1%positive].
Proof.
  destruct (quickAmendItem_outcome Sample.payloadHash Sample.ancestors Sample.persists "a" "9" 1
              (mkRevision "root" "first" [mkItem "a" Added "0"] []) Sample.stashedProject)
    as (s' & Hrun & Hst & _ & _ & Hch & _).
  - reflexivity.
  - vm_compute. reflexivity.
  - exists s'. split; [exact Hrun|]. split; [|exact Hch].
    rewrite Hst, lookup_insert_eq. reflexivity.
Defined.

Lemma unbound_head_witness :
  quickAmendItem Sample.payloadHash Sample.ancestors Sample.persists "a" "9" Sample.unbound = None ∧
  serialize 2 Sample.unbound = None ∧
  ∃ s', commit Sample.freshUuid Sample.payloadHash Sample.ancestors Sample.itemDiff Sample.persists
          [0%Z] "first edit" Sample.unbound = Some (false, s') ∧
        preserves Sample.unbound s'.
Proof.
  apply unbound_head; [reflexivity|]. intros d Hd. simpl in Hd. discriminate.
Defined.

Lemma serialize_deserialize_hash_witness :
  ∃ tree s',
    serialize 2 Sample.onStash = Some tree ∧
    deserialize Sample.isEmpty Sample.freshUuid Sample.Head_reset Sample.Head_deserialize
      2 (VersionControlTree tree)
      (VersionControl_new Sample.freshUuid Sample.ancestors ∅) = Some (tt, s') ∧
    calculateHash Sample.stringHash Sample.combineHash 2 s'
    = calculateHash Sample.stringHash Sample.combineHash 2 Sample.onStash ∧
    changes s' = [].
Proof.
  destruct (serialize_deserialize_hash Sample.isEmpty Sample.freshUuid
              Sample.stringHash Sample.combineHash Sample.Head_reset
              Sample.Head_deserialize Sample_isEmpty_sentinel Sample_isEmpty_shape
              2 Sample.onStash
              (VersionControl_new Sample.freshUuid Sample.ancestors ∅) 2
              (mkRevision "stash" "wip" [mkItem "a" Changed "1"] []))
    as (tree & s' & Hser & Hrun & Hhash & _ & _ & _ & _ & _ & Hch).
  - reflexivity.
  - vm_compute. reflexivity.
  - vm_compute. eexists. split; [reflexivity | constructor].
  - repeat constructor. vm_compute. eexists. split; [reflexivity | constructor].
  - intros q Hq. simpl in Hq. discriminate.
  - vm_compute. eauto.
  - exists tree, s'. split; [exact Hser|]. split; [exact Hrun|].
    split; [exact Hhash | exact Hch].
Defined.

Lemma deserialize_no_node_witness :
  ∃ s', deserialize Sample.isEmpty Sample.freshUuid Sample.Head_reset Sample.Head_deserialize
          2 (OtherTree []) (Sample.history 2 3) = Some (tt, s') ∧
        store s' !! 1%positive = Some (mkRevision "root" "first" [] []) ∧
        stashes s' = mkStashes [] None ∧ changes s' = [].
Proof.
  destruct (deserialize_no_node Sample.isEmpty Sample.freshUuid Sample.Head_reset
              Sample.Head_deserialize 2 (OtherTree [])
              (mkRevision "root" "first" [] [2%positive; 3%positive]) (Sample.history 2 3))
    as (s' & Hrun & _ & Hst & _ & _ & Hstash & _ & _ & Hch).
  - reflexivity.
  - vm_compute. reflexivity.
  - exists s'. split; [exact Hrun|]. split; [|split; [exact Hstash | exact Hch]].
    rewrite Hst. apply lookup_insert_eq.
Defined.

Lemma commit_keeps_tree_witness :
  ∃ b s', commit Sample.freshUuid Sample.payloadHash Sample.ancestors Sample.itemDiff Sample.persists
            [0%Z; 1%Z] "first edit"
            (VersionControl_new Sample.freshUuid Sample.ancestors Sample.document)
          = Some (b, s') ∧
          treeWithin (store s') 2 (rootRevision s') ∧
          is_Some (calculateHash Sample.stringHash Sample.combineHash 2 s') ∧
          diffCached s'.
Proof.
  destruct (commit_keeps_tree Sample.freshUuid Sample.stringHash Sample.combineHash
              Sample.payloadHash Sample.ancestors Sample.itemDiff Sample.persists [0%Z; 1%Z] "first edit" 1
              (mkRevision "rev-1" "defaults::newproject::firstcommit" [] []) 1
              (VersionControl_new Sample.freshUuid Sample.ancestors Sample.document))
    as (b & s' & Hrun & Htree & Hhash & Hc & _).
  - intros d Hd. simpl in Hd. discriminate.
  - reflexivity.
  - vm_compute. reflexivity.
  - vm_compute. eexists. split; [reflexivity | constructor].
  - exists b, s'. split; [exact Hrun|]. split; [exact Htree|].
    split; [exact Hhash | exact Hc].
Defined.
